(** * verification_sim: path loss, per-trial metrics and the distance sweep

    A shallow embedding of [verification_sim.py].

    Numbers.  Python floats and numpy float64 values are read as real
    numbers ([R]): [+ - * /] are the field operations, [x ** 2] is a
    square, [x ** y] with a float exponent is [Rpower x y] (its base is
    strictly positive wherever the program uses it), [np.sqrt] is [sqrt]
    and [np.pi] is [PI].  Rounding, overflow and the IEEE special values
    are outside this reading; the parts of the program where they matter
    (the path-loss function of lines 26-33 and the accumulation of lines
    60-77) are embedded a second time on binary64 in [Module Binary64]. *)

From Stdlib Require Import Reals Lra Lia List Arith ZArith Permutation.
From Stdlib Require PrimFloat Uint63 Floats.
Import ListNotations.

Local Open Scope R_scope.

(** ** 1. Physical constants (lines 4-16) *)

Definition SPEED_OF_LIGHT_METERS_PER_SECOND : R := 3 * 10 ^ 8.
Definition CARRIER_FREQUENCY_HERTZ : R := 18375 / 10 * 10 ^ 6.

Definition PATH_LOSS_CONSTANT_KAPPA : R :=
  (4 * PI * CARRIER_FREQUENCY_HERTZ / SPEED_OF_LIGHT_METERS_PER_SECOND) ^ 2.

Definition TRANSMIT_POWER_DBM : R := 6275 / 100.
Definition TRANSMIT_POWER_WATTS : R :=
  Rpower 10 ((TRANSMIT_POWER_DBM - 30) / 10).
Definition PATH_LOSS_EXPONENT_ALPHA : R := 32 / 10.
Definition BASE_STATION_HEIGHT_METERS : R := 33.

Definition NOISE_FLOOR_DBM : R := - (9621 / 100).
Definition NOISE_FLOOR_WATTS : R :=
  Rpower 10 ((NOISE_FLOOR_DBM - 30) / 10).

(** ** 2. Topology model (lines 18-24) *)

Definition SIMULATION_RADIUS_LIMIT_METERS : R := 7000.
Definition CITY_DISTRIBUTION_SPREAD_METERS : R := 1200.

(** ** Path loss (lines 26-33) *)

Definition get_path_loss_attenuation_factor (distance_2d_meters : R) : R :=
  let distance_3d_squared :=
    distance_2d_meters ^ 2 + BASE_STATION_HEIGHT_METERS ^ 2 in
  let attenuation_factor :=
    (1 / PATH_LOSS_CONSTANT_KAPPA)
    * Rpower distance_3d_squared (- PATH_LOSS_EXPONENT_ALPHA / 2) in
  attenuation_factor.

(** The same function applied to a numpy array works elementwise. *)
Definition get_path_loss_attenuation_factor_vec (distances : list R) : list R :=
  map get_path_loss_attenuation_factor distances.

(** ** numpy and Python primitives used by the driver *)

(** Exceptions the driver can meet: [np.max] of an empty array raises
    [ValueError]; the division of two Python ints by zero raises
    [ZeroDivisionError]. *)
Inductive exn : Type :=
| ValueError
| ZeroDivisionError.

(** [np.sum]: in exact arithmetic the order of the additions is immaterial. *)
Definition np_sum (a : list R) : R := fold_right Rplus 0 a.

(** [np.max]: no identity, hence an error on the empty array. *)
Definition np_max (a : list R) : exn + R :=
  match a with
  | [] => inl ValueError
  | x :: rest => inr (fold_left Rmax rest x)
  end.

(** [np.mean] of a Python list: the sum over the number of items.  On the
    empty list numpy answers NaN with a warning; the only call site
    divides by [NUMBER_OF_MONTE_CARLO_ITERATIONS] on the next line, which
    raises in exactly that case, so that value is never returned. *)
Definition np_mean (a : list R) : R := np_sum a / INR (length a).

(** [a / b] on Python ints. *)
Definition py_truediv (a b : nat) : exn + R :=
  match b with
  | O => inl ZeroDivisionError
  | S _ => inr (INR a / INR b)
  end.

(** [np.linspace(start, stop, num)] with the default [endpoint=True]:
    [arange(num) * step + start] with [step = (stop - start) / (num - 1)],
    the last entry then overwritten by [stop]; a single sample is [start]. *)
Definition np_linspace (start stop : R) (num : nat) : list R :=
  match num with
  | O => []
  | S O => [start]
  | S div =>
      let step := (stop - start) / INR div in
      let y := map (fun i => INR i * step + start) (seq 0 num) in
      removelast y ++ [stop]
  end.

(** ** Counts

    [NUMBER_OF_BASE_STATIONS] and [NUMBER_OF_MONTE_CARLO_ITERATIONS] are
    module constants and the number of distance samples is the literal
    third argument of [np.linspace]; the driver is written over the three
    counts so that the loops can be examined at any size.
    [reference_counts] holds the values of the source. *)
Record Counts : Type := {
  NUMBER_OF_BASE_STATIONS : nat;
  NUMBER_OF_MONTE_CARLO_ITERATIONS : nat;
  NUMBER_OF_DISTANCE_SAMPLES : nat
}.

Definition reference_counts : Counts :=
  {| NUMBER_OF_BASE_STATIONS := 80;
     NUMBER_OF_MONTE_CARLO_ITERATIONS := 200;
     NUMBER_OF_DISTANCE_SAMPLES := 50 |}.

(** The values a trial computes (lines 60-73). *)
Record TrialResult : Type := {
  total_received_power_watts : R;
  strongest_signal_watts : R;
  interference_watts : R;
  signal_to_interference_noise_ratio : R;
  coverage_success : bool;
  electromagnetic_flux_density : R
}.

(** Lines 53-58: distances to the user at [(current_user_distance, 0)]
    and the received powers, station by station. *)
Definition distances_2d_meters (xs ys : list R) (current_user_distance : R)
  : list R :=
  map (fun xy => sqrt ((fst xy - current_user_distance) ^ 2 + (snd xy - 0) ^ 2))
      (combine xs ys).

Definition received_powers_watts (distances : list R) : list R :=
  map (fun l => TRANSMIT_POWER_WATTS * l)
      (get_path_loss_attenuation_factor_vec distances).

(** Lines 60-73 on an array of received powers. *)
Definition trial_metrics (received : list R) : exn + TrialResult :=
  let total := np_sum received in
  match np_max received with
  | inl e => inl e
  | inr strongest =>
      let interference := total - strongest in
      let sinr := strongest / (interference + NOISE_FLOOR_WATTS) in
      inr {| total_received_power_watts := total;
             strongest_signal_watts := strongest;
             interference_watts := interference;
             signal_to_interference_noise_ratio := sinr;
             coverage_success := if Rgt_dec sinr (5 / 10) then true else false;
             electromagnetic_flux_density :=
               (PATH_LOSS_CONSTANT_KAPPA / (4 * PI)) * total |}
  end.

(** ** Lines 60-77 on binary64

    The same accumulation on IEEE binary64 values, for the behaviour on
    infinities and NaN.  The inputs are the arrays of received powers of
    the trials of one distance sample.  numpy's [np.add.reduce] adds in
    blocks whose layout belongs to the library: it is a parameter, as are
    the two constants whose values go through [pow] and [pi]. *)
Module Binary64.
Import PrimFloat.

Section Accumulation.
Variable add_reduce : list float -> float.
Variable NOISE_FLOOR_WATTS : float.
Variable KAPPA_OVER_4PI : float.

(** [np.maximum] propagates NaN. *)
Definition np_maximum (a b : float) : float :=
  if is_nan a then a
  else if is_nan b then b
  else if ltb a b then b else a.

Definition np_max (a : list float) : exn + float :=
  match a with
  | [] => inl ValueError
  | x :: rest => inr (fold_left np_maximum rest x)
  end.

Definition float_of_nat (n : nat) : float :=
  of_uint63 (Uint63.of_Z (Z.of_nat n)).

Definition np_mean (a : list float) : float :=
  div (add_reduce a) (float_of_nat (length a)).

(** Python int over int; both are far below [2^53] here, so the quotient
    of the converted values is the correctly rounded one. *)
Definition py_truediv (a b : nat) : exn + float :=
  match b with
  | O => inl ZeroDivisionError
  | S _ => inr (div (float_of_nat a) (float_of_nat b))
  end.

(** One trial: the ratio, the coverage decision and the flux. *)
Definition trial_metrics (received : list float)
  : exn + (float * bool * float) :=
  let total := add_reduce received in
  match np_max received with
  | inl e => inl e
  | inr strongest =>
      let interference := sub total strongest in
      let sinr := div strongest (add interference NOISE_FLOOR_WATTS) in
      inr (sinr, ltb 0.5%float sinr, mul KAPPA_OVER_4PI total)
  end.

(** The inner loop over the trials of one distance sample. *)
Fixpoint monte_carlo_loop (trials : list (list float))
    (monte_carlo_flux_samples : list float)
    (monte_carlo_successful_connections : nat)
  : exn + (list float * nat) :=
  match trials with
  | [] => inr (monte_carlo_flux_samples, monte_carlo_successful_connections)
  | received :: later =>
      match trial_metrics received with
      | inl e => inl e
      | inr (_, success, flux) =>
          monte_carlo_loop later
            (monte_carlo_flux_samples ++ [flux])
            (if success then S monte_carlo_successful_connections
             else monte_carlo_successful_connections)
      end
  end.

End Accumulation.

(** Summation from left to right; numpy does the same on fewer than
    eight items. *)
Definition sum_in_order (a : list float) : float :=
  match a with
  | [] => zero
  | x :: rest => fold_left add rest x
  end.

(** Exact binary64 values of the size of the two constants
    ([2^-42] is about [2.27e-13]; the flux factor is about [471]). *)
Definition example_noise_floor : float := 0x1p-42%float.
Definition example_kappa_over_4pi : float := 472%float.




(** Lines 26-33 on binary64.  The squares are products: numpy evaluates
    [** 2] on an array as a multiplication, and the square of the height,
    1089, is exact.  The power with the exponent [-alpha / 2] is the
    [pow] of the C library, a parameter here, as is [kappa].  The
    exponent is the double nearest to 3.2. *)
Definition BASE_STATION_HEIGHT_METERS : float := 33%float.
Definition PATH_LOSS_EXPONENT_ALPHA : float := 0x1.999999999999ap+1%float.

Definition distance_3d_squared (distance_2d_meters : float) : float :=
  add (mul distance_2d_meters distance_2d_meters)
      (mul BASE_STATION_HEIGHT_METERS BASE_STATION_HEIGHT_METERS).

Definition get_path_loss_attenuation_factor (pow : float -> float -> float)
    (PATH_LOSS_CONSTANT_KAPPA : float) (distance_2d_meters : float) : float :=
  mul (div 1%float PATH_LOSS_CONSTANT_KAPPA)
      (pow (distance_3d_squared distance_2d_meters)
           (div (opp PATH_LOSS_EXPONENT_ALPHA) 2%float)).

(** Two distances for worked examples: zero and [2^-30] metres. *)
Definition example_near_distance : float := 0x1p-30%float.

End Binary64.

(** ** The driver (lines 35-79)

    The ambient generator of [np.random] is read as a state [rng] with one
    operation, a standard normal draw that returns the next state. *)
Section Driver.
Variable rng : Type.
Variable standard_normal : rng -> R * rng.

(** State of the generator and exceptions. *)
Definition M (A : Type) : Type := rng -> (exn + A) * rng.

Definition ret {A : Type} (a : A) : M A := fun s => (inr a, s).

Definition raise {A : Type} (e : exn) : M A := fun s => (inl e, s).

Definition bind {A B : Type} (c : M A) (k : A -> M B) : M B :=
  fun s =>
    match c s with
    | (inl e, s') => (inl e, s')
    | (inr a, s') => k a s'
    end.

Definition lift {A : Type} (r : exn + A) : M A :=
  match r with
  | inl e => raise e
  | inr a => ret a
  end.

Notation "x <- c ;; k" := (bind c (fun x => k))
  (at level 61, c at next level, right associativity).

(** [np.random.normal(loc, scale, size)]: [size] draws, one after the
    other, each [loc + scale * z] for a standard normal [z]. *)
Fixpoint draw_normal (loc scale : R) (size : nat) (s : rng) : list R * rng :=
  match size with
  | O => ([], s)
  | S n =>
      let (z, s1) := standard_normal s in
      let (rest, s2) := draw_normal loc scale n s1 in
      (loc + scale * z :: rest, s2)
  end.

Definition random_normal (loc scale : R) (size : nat) : M (list R) :=
  fun s => let (a, s') := draw_normal loc scale size s in (inr a, s').

Variable counts : Counts.

(** Lines 49-50: the topology of one trial. *)
Definition sample_topology : M (list R * list R) :=
  base_station_x_coordinates <-
    random_normal 0 CITY_DISTRIBUTION_SPREAD_METERS
      (NUMBER_OF_BASE_STATIONS counts) ;;
  base_station_y_coordinates <-
    random_normal 0 CITY_DISTRIBUTION_SPREAD_METERS
      (NUMBER_OF_BASE_STATIONS counts) ;;
  ret (base_station_x_coordinates, base_station_y_coordinates).

(** Lines 48-73: one trial. *)
Definition trial (current_user_distance : R) : M TrialResult :=
  topology <- sample_topology ;;
  lift (trial_metrics
          (received_powers_watts
             (distances_2d_meters (fst topology) (snd topology)
                current_user_distance))).

(** Lines 47-74: the inner loop, with its two accumulators. *)
Fixpoint monte_carlo_loop (iterations : nat) (current_user_distance : R)
    (monte_carlo_flux_samples : list R)
    (monte_carlo_successful_connections : nat)
  : M (list R * nat) :=
  match iterations with
  | O => ret (monte_carlo_flux_samples, monte_carlo_successful_connections)
  | S later =>
      t <- trial current_user_distance ;;
      monte_carlo_loop later current_user_distance
        (monte_carlo_flux_samples ++ [electromagnetic_flux_density t])
        (if coverage_success t
         then S monte_carlo_successful_connections
         else monte_carlo_successful_connections)
  end.

(** Lines 43-77: the outer loop over the distance samples. *)
Fixpoint sweep_loop (user_distances : list R)
    (mean_emf_flux_density_results coverage_probability_results : list R)
  : M (list R * list R) :=
  match user_distances with
  | [] => ret (mean_emf_flux_density_results, coverage_probability_results)
  | current_user_distance :: later =>
      acc <- monte_carlo_loop (NUMBER_OF_MONTE_CARLO_ITERATIONS counts)
               current_user_distance [] 0 ;;
      let mean := np_mean (fst acc) in
      probability <-
        lift (py_truediv (snd acc) (NUMBER_OF_MONTE_CARLO_ITERATIONS counts)) ;;
      sweep_loop later
        (mean_emf_flux_density_results ++ [mean])
        (coverage_probability_results ++ [probability])
  end.

Definition user_distances_from_center : list R :=
  np_linspace 0 4000 (NUMBER_OF_DISTANCE_SAMPLES counts).

Definition run_simulation : M (list R * list R * list R) :=
  results <- sweep_loop user_distances_from_center [] [] ;;
  ret (user_distances_from_center, fst results, snd results).

(** The state of the generator after a number of trials: a trial draws
    the same number of values whatever the user distance. *)
Definition after_trial (s : rng) : rng := snd (sample_topology s).

Fixpoint after_trials (n : nat) (s : rng) : rng :=
  match n with
  | O => s
  | S m => after_trials m (after_trial s)
  end.

(** The result of the trial that starts in state [s]. *)
Definition trial_at (current_user_distance : R) (s : rng)
  : exn + TrialResult :=
  fst (trial current_user_distance s).

(** The trials of the distance sample of index [i], when the sweep
    started in state [s]: trial [j] of that sample is the
    [(i * K + j)]-th trial of the run. *)
Definition trials_of_sample (i : nat) (current_user_distance : R) (s : rng)
  : list (exn + TrialResult) :=
  map (fun j =>
         trial_at current_user_distance
           (after_trials
              (i * NUMBER_OF_MONTE_CARLO_ITERATIONS counts + j) s))
      (seq 0 (NUMBER_OF_MONTE_CARLO_ITERATIONS counts)).

(** The next [n] standard normal draws of a generator, and its state
    after them. *)
Fixpoint next_draws (n : nat) (s : rng) : list R :=
  match n with
  | O => []
  | S m => fst (standard_normal s) :: next_draws m (snd (standard_normal s))
  end.

Fixpoint advance (n : nat) (s : rng) : rng :=
  match n with
  | O => s
  | S m => advance m (snd (standard_normal s))
  end.

End Driver.

Arguments ret {rng A} a s.
Arguments raise {rng A} e s.
Arguments bind {rng A B} c k s.
Arguments lift {rng A} r s.
Arguments draw_normal {rng} standard_normal loc scale size s.
Arguments random_normal {rng} standard_normal loc scale size s.
Arguments sample_topology {rng} standard_normal counts s.
Arguments trial {rng} standard_normal counts current_user_distance s.
Arguments monte_carlo_loop {rng} standard_normal counts iterations
  current_user_distance monte_carlo_flux_samples
  monte_carlo_successful_connections s.
Arguments sweep_loop {rng} standard_normal counts user_distances
  mean_emf_flux_density_results coverage_probability_results s.
Arguments run_simulation {rng} standard_normal counts s.
Arguments after_trial {rng} standard_normal counts s.
Arguments after_trials {rng} standard_normal counts n s.
Arguments trial_at {rng} standard_normal counts current_user_distance s.
Arguments trials_of_sample {rng} standard_normal counts i
  current_user_distance s.
Arguments next_draws {rng} standard_normal n s.
Arguments advance {rng} standard_normal n s.

(** A generator for worked examples: its state is a counter and the
    [n]-th draw is the number [n]. *)
Definition counting_normal (n : nat) : R * nat := (INR n, S n).


(** Counts for worked examples: a small sweep, and the counts of the
    source with the number of distance samples set to zero. *)
Definition small_counts : Counts :=
  {| NUMBER_OF_BASE_STATIONS := 1;
     NUMBER_OF_MONTE_CARLO_ITERATIONS := 2;
     NUMBER_OF_DISTANCE_SAMPLES := 3 |}.

Definition no_sample_counts : Counts :=
  {| NUMBER_OF_BASE_STATIONS := 80;
     NUMBER_OF_MONTE_CARLO_ITERATIONS := 200;
     NUMBER_OF_DISTANCE_SAMPLES := 0 |}.

(** The number of successes among trial results. *)
Definition successes (ts : list TrialResult) : nat :=
  length (filter coverage_success ts).

(** ** Facts about the constants *)

Lemma kappa_pos : 0 < PATH_LOSS_CONSTANT_KAPPA.
Proof.
  unfold PATH_LOSS_CONSTANT_KAPPA, CARRIER_FREQUENCY_HERTZ,
    SPEED_OF_LIGHT_METERS_PER_SECOND.
  apply pow_lt. apply Rdiv_lt_0_compat.
  - pose proof PI_RGT_0. lra.
  - lra.
Qed.

Lemma transmit_power_pos : 0 < TRANSMIT_POWER_WATTS.
Proof. unfold TRANSMIT_POWER_WATTS, Rpower. apply exp_pos. Qed.

Lemma noise_floor_pos : 0 < NOISE_FLOOR_WATTS.
Proof. unfold NOISE_FLOOR_WATTS, Rpower. apply exp_pos. Qed.

Lemma distance_3d_squared_pos (r : R) :
  0 < r ^ 2 + BASE_STATION_HEIGHT_METERS ^ 2.
Proof.
  unfold BASE_STATION_HEIGHT_METERS. pose proof (pow2_ge_0 r). lra.
Qed.

(** [Rpower] with a negative exponent is strictly decreasing in its base. *)
Lemma Rpower_neg_exponent_decr (x y e : R) :
  0 < x -> x < y -> e < 0 -> Rpower y e < Rpower x e.
Proof.
  intros Hx Hxy He. unfold Rpower. apply exp_increasing.
  assert (Hln : ln x < ln y) by (apply ln_increasing; assumption).
  nra.
Qed.

Lemma Rpower_sqr (x e : R) :
  0 < x -> Rpower (x ^ 2) (e / 2) = Rpower x e.
Proof.
  intros Hx. unfold Rpower. f_equal.
  replace (x ^ 2) with (x * x) by ring.
  rewrite ln_mult by assumption. field.
Qed.

Lemma alpha_pos : 0 < PATH_LOSS_EXPONENT_ALPHA.
Proof. unfold PATH_LOSS_EXPONENT_ALPHA. lra. Qed.

Lemma path_loss_pos (r : R) : 0 < get_path_loss_attenuation_factor r.
Proof.
  unfold get_path_loss_attenuation_factor.
  apply Rmult_lt_0_compat.
  - apply Rdiv_lt_0_compat; [lra | apply kappa_pos].
  - unfold Rpower. apply exp_pos.
Qed.

Lemma path_loss_decreasing (r1 r2 : R) :
  0 <= r1 -> r1 < r2 ->
  get_path_loss_attenuation_factor r2 < get_path_loss_attenuation_factor r1.
Proof.
  intros H0 Hlt. unfold get_path_loss_attenuation_factor.
  apply Rmult_lt_compat_l.
  - apply Rdiv_lt_0_compat; [lra | apply kappa_pos].
  - apply Rpower_neg_exponent_decr.
    + apply distance_3d_squared_pos.
    + assert (r1 ^ 2 < r2 ^ 2) by nra. lra.
    + pose proof alpha_pos. lra.
Qed.

Lemma path_loss_at_zero :
  get_path_loss_attenuation_factor 0 =
  / PATH_LOSS_CONSTANT_KAPPA
  * Rpower BASE_STATION_HEIGHT_METERS (- PATH_LOSS_EXPONENT_ALPHA).
Proof.
  unfold get_path_loss_attenuation_factor.
  replace (0 ^ 2 + BASE_STATION_HEIGHT_METERS ^ 2)
    with (BASE_STATION_HEIGHT_METERS ^ 2) by ring.
  rewrite Rpower_sqr by (unfold BASE_STATION_HEIGHT_METERS; lra).
  unfold Rdiv. ring.
Qed.

(** ** The path-loss function *)

(** C2. On a scalar [r], [get_path_loss_attenuation_factor] returns
    [kappa^-1 * (r^2 + h^2)^(-alpha/2)]; on a vector it returns that
    value entry by entry; and at [r = 0] the value is
    [kappa^-1 * h^(-alpha)]. *)
Theorem path_loss_formula :
  (forall r : R,
      get_path_loss_attenuation_factor r =
      / PATH_LOSS_CONSTANT_KAPPA
      * Rpower (r ^ 2 + BASE_STATION_HEIGHT_METERS ^ 2)
               (- (PATH_LOSS_EXPONENT_ALPHA / 2)))
  /\ (forall (rs : list R) (i : nat),
         (i < length rs)%nat ->
         nth i (get_path_loss_attenuation_factor_vec rs) 0 =
         / PATH_LOSS_CONSTANT_KAPPA
         * Rpower (nth i rs 0 ^ 2 + BASE_STATION_HEIGHT_METERS ^ 2)
                  (- (PATH_LOSS_EXPONENT_ALPHA / 2)))
  /\ (forall rs : list R,
         length (get_path_loss_attenuation_factor_vec rs) = length rs)
  /\ get_path_loss_attenuation_factor 0 =
     / PATH_LOSS_CONSTANT_KAPPA
     * Rpower BASE_STATION_HEIGHT_METERS (- PATH_LOSS_EXPONENT_ALPHA).
Proof.
  assert (Hscalar : forall r : R,
             get_path_loss_attenuation_factor r =
             / PATH_LOSS_CONSTANT_KAPPA
             * Rpower (r ^ 2 + BASE_STATION_HEIGHT_METERS ^ 2)
                      (- (PATH_LOSS_EXPONENT_ALPHA / 2))).
  { intros r. unfold get_path_loss_attenuation_factor.
    replace (- PATH_LOSS_EXPONENT_ALPHA / 2)
      with (- (PATH_LOSS_EXPONENT_ALPHA / 2)) by (unfold Rdiv; ring).
    unfold Rdiv. ring. }
  split; [exact Hscalar |].
  split.
  - intros rs i Hi. unfold get_path_loss_attenuation_factor_vec.
    rewrite (nth_indep _ 0 (get_path_loss_attenuation_factor 0))
      by (rewrite length_map; exact Hi).
    rewrite map_nth. apply Hscalar.
  - split.
    + intros rs. unfold get_path_loss_attenuation_factor_vec.
      apply length_map.
    + apply path_loss_at_zero.
Qed.

(** C4 (in exact arithmetic).  Computed without rounding, for distances
    [0 <= r1 < r2] the attenuation factor is strictly positive, strictly
    decreasing, and bounded above by its value at zero horizontal
    distance, [kappa^-1 * h^(-alpha)]. *)
Theorem path_loss_positive_decreasing_bounded (r1 r2 : R) :
  0 <= r1 -> r1 < r2 ->
  0 < get_path_loss_attenuation_factor r2
  /\ get_path_loss_attenuation_factor r2 < get_path_loss_attenuation_factor r1
  /\ get_path_loss_attenuation_factor r1 <= get_path_loss_attenuation_factor 0
  /\ get_path_loss_attenuation_factor 0 =
     / PATH_LOSS_CONSTANT_KAPPA
     * Rpower BASE_STATION_HEIGHT_METERS (- PATH_LOSS_EXPONENT_ALPHA).
Proof.
  intros H0 Hlt. split; [apply path_loss_pos |].
  split; [apply path_loss_decreasing; assumption |].
  split; [| apply path_loss_at_zero].
  destruct H0 as [Hpos | Heq].
  - left. apply path_loss_decreasing; [lra | exact Hpos].
  - subst r1. right. reflexivity.
Qed.

Lemma path_loss_positive_decreasing_bounded_witness :
  0 <= 100 /\ 100 < 4000
  /\ get_path_loss_attenuation_factor 4000
     < get_path_loss_attenuation_factor 100.
Proof.
  split; [lra |]. split; [lra |].
  apply (path_loss_positive_decreasing_bounded 100 4000); lra.
Defined.

(** ** Sums and maxima of received powers *)

Lemma fold_left_Rmax_ge_init (l : list R) (x : R) : x <= fold_left Rmax l x.
Proof.
  revert x. induction l as [| y l IH]; intros x; simpl.
  - lra.
  - eapply Rle_trans; [apply (Rmax_l x y) | apply IH].
Qed.

Lemma fold_left_Rmax_upper (l : list R) (x p : R) :
  In p (x :: l) -> p <= fold_left Rmax l x.
Proof.
  revert x. induction l as [| y l IH]; intros x Hin; simpl.
  - destruct Hin as [-> | []]. lra.
  - destruct Hin as [-> | [-> | Hin]].
    + eapply Rle_trans; [apply (Rmax_l p y) | apply fold_left_Rmax_ge_init].
    + eapply Rle_trans; [apply (Rmax_r x p) | apply fold_left_Rmax_ge_init].
    + apply IH. right. exact Hin.
Qed.

Lemma fold_left_Rmax_in (l : list R) (x : R) : In (fold_left Rmax l x) (x :: l).
Proof.
  revert x. induction l as [| y l IH]; intros x; simpl.
  - left. reflexivity.
  - destruct (IH (Rmax x y)) as [Heq | Hin].
    + unfold Rmax in Heq at 1. destruct (Rle_dec x y).
      * right. left. exact Heq.
      * left. exact Heq.
    + right. right. exact Hin.
Qed.

Lemma np_sum_nonneg (l : list R) :
  Forall (fun p => 0 <= p) l -> 0 <= np_sum l.
Proof.
  induction 1 as [| p l Hp _ IH]; simpl; lra.
Qed.

Lemma np_sum_ge_member (l : list R) (p : R) :
  Forall (fun q => 0 <= q) l -> In p l -> p <= np_sum l.
Proof.
  induction 1 as [| q l Hq Hl IH]; intros Hin; simpl.
  - destruct Hin.
  - pose proof (np_sum_nonneg l Hl). destruct Hin as [-> | Hin].
    + lra.
    + specialize (IH Hin). lra.
Qed.

Lemma np_sum_app (a b : list R) : np_sum (a ++ b) = np_sum a + np_sum b.
Proof.
  induction a as [| x a IH]; simpl; [| rewrite IH]; ring.
Qed.

Lemma received_powers_pos (distances : list R) :
  Forall (fun p => 0 < p) (received_powers_watts distances).
Proof.
  unfold received_powers_watts, get_path_loss_attenuation_factor_vec.
  rewrite map_map. apply Forall_forall. intros p Hin.
  apply in_map_iff in Hin. destruct Hin as [r [<- _]].
  apply Rmult_lt_0_compat; [apply transmit_power_pos | apply path_loss_pos].
Qed.

Lemma received_powers_length (distances : list R) :
  length (received_powers_watts distances) = length distances.
Proof.
  unfold received_powers_watts, get_path_loss_attenuation_factor_vec.
  now rewrite !length_map.
Qed.

Lemma kappa_over_4pi_pos : 0 < PATH_LOSS_CONSTANT_KAPPA / (4 * PI).
Proof.
  apply Rdiv_lt_0_compat; [apply kappa_pos |].
  pose proof PI_RGT_0. lra.
Qed.

(** What lines 60-73 compute on a non-empty array of positive powers. *)
Lemma trial_metrics_spec (received : list R) :
  received <> [] ->
  Forall (fun p => 0 < p) received ->
  exists t : TrialResult,
    trial_metrics received = inr t
    /\ total_received_power_watts t = np_sum received
    /\ In (strongest_signal_watts t) received
    /\ (forall p, In p received -> p <= strongest_signal_watts t)
    /\ interference_watts t =
       total_received_power_watts t - strongest_signal_watts t
    /\ 0 <= interference_watts t
    /\ signal_to_interference_noise_ratio t =
       strongest_signal_watts t / (interference_watts t + NOISE_FLOOR_WATTS)
    /\ (coverage_success t = true <->
        signal_to_interference_noise_ratio t > 5 / 10)
    /\ electromagnetic_flux_density t =
       PATH_LOSS_CONSTANT_KAPPA / (4 * PI) * total_received_power_watts t.
Proof.
  intros Hne Hpos. destruct received as [| x rest]; [congruence |].
  unfold trial_metrics. cbn [np_max].
  eexists. split; [reflexivity |]. cbn [total_received_power_watts
    strongest_signal_watts interference_watts
    signal_to_interference_noise_ratio coverage_success
    electromagnetic_flux_density].
  assert (Hnn : Forall (fun q => 0 <= q) (x :: rest)).
  { eapply Forall_impl; [| exact Hpos]. intros a Ha. simpl in Ha. lra. }
  split; [reflexivity |].
  split; [apply fold_left_Rmax_in |].
  split; [intros p Hp; apply fold_left_Rmax_upper; exact Hp |].
  split; [reflexivity |].
  split.
  { pose proof (np_sum_ge_member _ _ Hnn (fold_left_Rmax_in rest x)). lra. }
  split; [reflexivity |].
  split; [| reflexivity].
  destruct (Rgt_dec _ _) as [Hgt | Hngt]; split; intros H;
    try assumption; try reflexivity; try discriminate.
  contradiction.
Qed.

(** ** The generator and the topology sampler *)

Section DriverFacts.
Context {rng : Type}.
Variable standard_normal : rng -> R * rng.
Variable counts : Counts.

Let N := NUMBER_OF_BASE_STATIONS counts.
Let K := NUMBER_OF_MONTE_CARLO_ITERATIONS counts.

Lemma draw_normal_spec (loc scale : R) (n : nat) (s : rng) :
  draw_normal standard_normal loc scale n s =
  (map (fun z => loc + scale * z) (next_draws standard_normal n s),
   advance standard_normal n s).
Proof.
  revert s. induction n as [| n IH]; intros s; simpl.
  - reflexivity.
  - destruct (standard_normal s) as [z s1]. rewrite IH. reflexivity.
Qed.

Lemma next_draws_length (n : nat) (s : rng) :
  length (next_draws standard_normal n s) = n.
Proof.
  revert s. induction n as [| n IH]; intros s; simpl; [| rewrite IH];
    reflexivity.
Qed.

Lemma advance_add (a b : nat) (s : rng) :
  advance standard_normal (a + b) s =
  advance standard_normal b (advance standard_normal a s).
Proof.
  revert s. induction a as [| a IH]; intros s; simpl; [| rewrite IH];
    reflexivity.
Qed.

Lemma next_draws_add (a b : nat) (s : rng) :
  next_draws standard_normal (a + b) s =
  next_draws standard_normal a s
  ++ next_draws standard_normal b (advance standard_normal a s).
Proof.
  revert s. induction a as [| a IH]; intros s; simpl; [| rewrite IH];
    reflexivity.
Qed.

Lemma sample_topology_spec (s : rng) :
  sample_topology standard_normal counts s =
  (inr (map (fun z => 0 + CITY_DISTRIBUTION_SPREAD_METERS * z)
            (next_draws standard_normal N s),
        map (fun z => 0 + CITY_DISTRIBUTION_SPREAD_METERS * z)
            (next_draws standard_normal N (advance standard_normal N s))),
   advance standard_normal (N + N) s).
Proof.
  unfold sample_topology, bind, random_normal, ret.
  rewrite !draw_normal_spec. fold N. rewrite advance_add. reflexivity.
Qed.

Lemma after_trial_spec (s : rng) :
  after_trial standard_normal counts s = advance standard_normal (N + N) s.
Proof. unfold after_trial. rewrite sample_topology_spec. reflexivity. Qed.

(** With at least one base station a trial returns its values and
    leaves the generator where the sampler left it. *)
Lemma trial_spec (d : R) (s : rng) :
  (1 <= N)%nat ->
  exists (xs ys : list R) (t : TrialResult),
    sample_topology standard_normal counts s =
      (inr (xs, ys), after_trial standard_normal counts s)
    /\ length xs = N /\ length ys = N
    /\ trial standard_normal counts d s =
         (inr t, after_trial standard_normal counts s)
    /\ trial_metrics (received_powers_watts (distances_2d_meters xs ys d))
       = inr t
    /\ received_powers_watts (distances_2d_meters xs ys d) <> [].
Proof.
  intros HN.
  set (xs := map (fun z => 0 + CITY_DISTRIBUTION_SPREAD_METERS * z)
                 (next_draws standard_normal N s)).
  set (ys := map (fun z => 0 + CITY_DISTRIBUTION_SPREAD_METERS * z)
                 (next_draws standard_normal N
                    (advance standard_normal N s))).
  assert (Hxs : length xs = N)
    by (unfold xs; rewrite length_map; apply next_draws_length).
  assert (Hys : length ys = N)
    by (unfold ys; rewrite length_map; apply next_draws_length).
  assert (Hne : received_powers_watts (distances_2d_meters xs ys d) <> []).
  { intros Hnil. apply (f_equal (@length R)) in Hnil.
    rewrite received_powers_length in Hnil.
    unfold distances_2d_meters in Hnil.
    rewrite length_map, length_combine, Hxs, Hys in Hnil.
    simpl in Hnil. lia. }
  destruct (trial_metrics_spec _ Hne (received_powers_pos _)) as [t [Ht _]].
  exists xs, ys, t.
  assert (Htop : sample_topology standard_normal counts s =
                 (inr (xs, ys), after_trial standard_normal counts s)).
  { rewrite after_trial_spec. apply sample_topology_spec. }
  split; [exact Htop |].
  split; [exact Hxs |]. split; [exact Hys |].
  split; [| split; [exact Ht | exact Hne]].
  unfold trial, bind. rewrite Htop. cbn [fst snd].
  rewrite Ht. reflexivity.
Qed.

(** ** Per-trial metrics *)

(** C1. In every trial the ratio is
    [strongest / (total - strongest + NOISE_FLOOR_WATTS)], where
    [strongest] is the largest and [total] the sum of the received
    powers of the stations; the trial is a coverage success exactly when
    the ratio is strictly above [0.5], and the loop counts it exactly
    then. *)
Theorem coverage_decision (d : R) (s : rng) :
  (1 <= N)%nat ->
  exists (xs ys : list R) (t : TrialResult),
    fst (sample_topology standard_normal counts s) = inr (xs, ys)
    /\ trial_at standard_normal counts d s = inr t
    /\ total_received_power_watts t =
       np_sum (received_powers_watts (distances_2d_meters xs ys d))
    /\ In (strongest_signal_watts t)
          (received_powers_watts (distances_2d_meters xs ys d))
    /\ (forall p,
           In p (received_powers_watts (distances_2d_meters xs ys d)) ->
           p <= strongest_signal_watts t)
    /\ signal_to_interference_noise_ratio t =
       strongest_signal_watts t
       / (total_received_power_watts t - strongest_signal_watts t
          + NOISE_FLOOR_WATTS)
    /\ (coverage_success t = true <->
        signal_to_interference_noise_ratio t > 5 / 10)
    /\ (forall (k : nat) (samples : list R) (successful : nat),
           monte_carlo_loop standard_normal counts (S k) d samples
             successful s =
           monte_carlo_loop standard_normal counts k d
             (samples ++ [electromagnetic_flux_density t])
             (if coverage_success t then S successful else successful)
             (after_trial standard_normal counts s)).
Proof.
  intros HN.
  destruct (trial_spec d s HN) as (xs & ys & t & Htop & _ & _ & Ht & Hm & Hne).
  destruct (trial_metrics_spec _ Hne (received_powers_pos _))
    as (t' & Ht' & Htot & Hin & Hmax & Hint & _ & Hsinr & Hcov & _).
  rewrite Hm in Ht'. injection Ht' as <-.
  exists xs, ys, t.
  split; [rewrite Htop; reflexivity |].
  split; [unfold trial_at; rewrite Ht; reflexivity |].
  split; [exact Htot |]. split; [exact Hin |]. split; [exact Hmax |].
  split; [rewrite Hsinr, Hint; reflexivity |].
  split; [exact Hcov |].
  intros k samples successful. cbn [monte_carlo_loop].
  unfold bind at 1. rewrite Ht. reflexivity.
Qed.

(** C3. In every trial the flux density is [(kappa / 4 pi) * total],
    where [total] is the sum of the received powers of the stations of
    the trial; it is defined and it is not negative. *)
Theorem flux_density_of_trial (d : R) (s : rng) :
  (1 <= N)%nat ->
  exists (xs ys : list R) (t : TrialResult),
    fst (sample_topology standard_normal counts s) = inr (xs, ys)
    /\ length xs = N /\ length ys = N
    /\ trial_at standard_normal counts d s = inr t
    /\ total_received_power_watts t =
       np_sum (received_powers_watts (distances_2d_meters xs ys d))
    /\ electromagnetic_flux_density t =
       PATH_LOSS_CONSTANT_KAPPA / (4 * PI)
       * np_sum (received_powers_watts (distances_2d_meters xs ys d))
    /\ electromagnetic_flux_density t =
       PATH_LOSS_CONSTANT_KAPPA / (4 * PI) * total_received_power_watts t
    /\ 0 <= electromagnetic_flux_density t.
Proof.
  intros HN.
  destruct (trial_spec d s HN)
    as (xs & ys & t & Htop & Hxs & Hys & Ht & Hm & Hne).
  destruct (trial_metrics_spec _ Hne (received_powers_pos _))
    as (t' & Ht' & Htot & Hin & Hmax & _ & _ & _ & _ & Hflux).
  rewrite Hm in Ht'. injection Ht' as <-.
  exists xs, ys, t.
  split; [rewrite Htop; reflexivity |].
  split; [exact Hxs |]. split; [exact Hys |].
  split; [unfold trial_at; rewrite Ht; reflexivity |].
  split; [exact Htot |].
  split; [rewrite Hflux, Htot; reflexivity |].
  split; [exact Hflux |].
  rewrite Hflux, Htot. apply Rmult_le_pos.
  - left. apply kappa_over_4pi_pos.
  - apply np_sum_nonneg. eapply Forall_impl; [| apply received_powers_pos].
    intros a Ha. simpl in Ha. lra.
Qed.

(** C10. In every trial with at least one base station the strongest
    received power is at most the total, the interference is not
    negative, the noise floor and hence the denominator of the ratio are
    strictly positive, and the ratio is that quotient and is not
    negative. *)
Theorem sinr_well_defined (d : R) (s : rng) :
  (1 <= N)%nat ->
  exists t : TrialResult,
    trial_at standard_normal counts d s = inr t
    /\ strongest_signal_watts t <= total_received_power_watts t
    /\ interference_watts t =
       total_received_power_watts t - strongest_signal_watts t
    /\ 0 <= interference_watts t
    /\ 0 < NOISE_FLOOR_WATTS
    /\ 0 < interference_watts t + NOISE_FLOOR_WATTS
    /\ signal_to_interference_noise_ratio t =
       strongest_signal_watts t / (interference_watts t + NOISE_FLOOR_WATTS)
    /\ 0 <= signal_to_interference_noise_ratio t.
Proof.
  intros HN.
  destruct (trial_spec d s HN) as (xs & ys & t & _ & _ & _ & Ht & Hm & Hne).
  destruct (trial_metrics_spec _ Hne (received_powers_pos _))
    as (t' & Ht' & Htot & Hin & Hmax & Hint & Hint0 & Hsinr & _ & _).
  rewrite Hm in Ht'. injection Ht' as <-.
  pose proof noise_floor_pos as Hnoise.
  assert (Hstrong : 0 < strongest_signal_watts t).
  { pose proof (received_powers_pos (distances_2d_meters xs ys d)) as Hp.
    rewrite Forall_forall in Hp. apply Hp. exact Hin. }
  exists t. split; [unfold trial_at; rewrite Ht; reflexivity |].
  split; [lra |]. split; [exact Hint |]. split; [exact Hint0 |].
  split; [exact Hnoise |]. split; [lra |]. split; [exact Hsinr |].
  rewrite Hsinr. left. apply Rdiv_lt_0_compat; lra.
Qed.

(** ** The loops *)

Lemma after_trials_add (a b : nat) (s : rng) :
  after_trials standard_normal counts (a + b) s =
  after_trials standard_normal counts b
    (after_trials standard_normal counts a s).
Proof.
  revert s. induction a as [| a IH]; intros s; simpl; [| rewrite IH];
    reflexivity.
Qed.

Lemma successes_cons (t : TrialResult) (ts : list TrialResult) :
  successes (t :: ts) =
  ((if coverage_success t then 1 else 0) + successes ts)%nat.
Proof. unfold successes. simpl. destruct (coverage_success t); reflexivity. Qed.

Lemma successes_le_length (ts : list TrialResult) :
  (successes ts <= length ts)%nat.
Proof. unfold successes. apply filter_length_le. Qed.

(** The inner loop runs its trials one after the other, appends every
    flux value and counts the successes. *)
Lemma monte_carlo_loop_spec (k : nat) (d : R) :
  (1 <= N)%nat ->
  forall (samples : list R) (successful : nat) (s : rng),
  exists ts : list TrialResult,
    length ts = k
    /\ map inr ts =
       map (fun j => trial_at standard_normal counts d
                       (after_trials standard_normal counts j s))
           (seq 0 k)
    /\ monte_carlo_loop standard_normal counts k d samples successful s =
       (inr (samples ++ map electromagnetic_flux_density ts,
             (successful + successes ts)%nat),
        after_trials standard_normal counts k s).
Proof.
  intros HN. induction k as [| k IH]; intros samples successful s.
  - exists []. split; [reflexivity |]. split; [reflexivity |].
    cbn. unfold ret. rewrite app_nil_r, Nat.add_0_r. reflexivity.
  - destruct (trial_spec d s HN) as (xs & ys & t & _ & _ & _ & Ht & _ & _).
    destruct (IH (samples ++ [electromagnetic_flux_density t])
                 (if coverage_success t then S successful else successful)
                 (after_trial standard_normal counts s))
      as (ts & Hlen & Hmap & Hloop).
    exists (t :: ts).
    split; [simpl; rewrite Hlen; reflexivity |].
    split.
    + cbn [seq map]. f_equal.
      * unfold trial_at. cbn [after_trials]. rewrite Ht. reflexivity.
      * rewrite Hmap, <- seq_shift, map_map. reflexivity.
    + cbn [monte_carlo_loop]. unfold bind at 1. rewrite Ht, Hloop.
      cbn [map after_trials]. rewrite <- app_assoc. cbn [app].
      rewrite successes_cons.
      destruct (coverage_success t).
      * replace (S successful + successes ts)%nat
          with (successful + (1 + successes ts))%nat by lia.
        reflexivity.
      * reflexivity.
Qed.

(** The outer loop: one mean and one probability per distance. *)
Lemma sweep_loop_spec (ds : list R) :
  (1 <= N)%nat -> (1 <= K)%nat ->
  forall (means probabilities : list R) (s : rng),
  exists tss : list (list TrialResult),
    length tss = length ds
    /\ (forall i, (i < length ds)%nat ->
          length (nth i tss []) = K
          /\ map inr (nth i tss []) =
             trials_of_sample standard_normal counts i (nth i ds 0) s)
    /\ sweep_loop standard_normal counts ds means probabilities s =
       (inr (means
               ++ map (fun ts =>
                         np_sum (map electromagnetic_flux_density ts)
                         / INR K) tss,
             probabilities
               ++ map (fun ts => INR (successes ts) / INR K) tss),
        after_trials standard_normal counts (length ds * K) s).
Proof.
  intros HN HK. induction ds as [| d rest IH]; intros means probabilities s.
  - exists []. split; [reflexivity |]. split; [intros i Hi; inversion Hi |].
    cbn. unfold ret. rewrite !app_nil_r. reflexivity.
  - destruct (monte_carlo_loop_spec K d HN [] 0%nat s)
      as (ts & Hlen & Hmap & Hloop).
    set (mean := np_sum (map electromagnetic_flux_density ts) / INR K).
    set (probability := INR (successes ts) / INR K).
    destruct (IH (means ++ [mean]) (probabilities ++ [probability])
                 (after_trials standard_normal counts K s))
      as (tss & Hlens & Hidx & Hsweep).
    exists (ts :: tss).
    split; [simpl; rewrite Hlens; reflexivity |].
    split.
    + intros [| i] Hi; cbn [nth].
      * split; [exact Hlen |].
        rewrite Hmap. unfold trials_of_sample. fold K. reflexivity.
      * destruct (Hidx i) as [Hl Hm]; [simpl in Hi; lia |].
        split; [exact Hl |]. rewrite Hm. unfold trials_of_sample. fold K.
        apply map_ext. intros j.
        rewrite <- after_trials_add. f_equal. f_equal. lia.
    + cbn [sweep_loop]. fold K. unfold bind at 1. rewrite Hloop.
      cbn [fst snd app]. unfold bind at 1.
      assert (Hdiv : py_truediv (0 + successes ts) K = inr probability).
      { unfold py_truediv. destruct K as [| k'] eqn:EK; [lia |].
        reflexivity. }
      rewrite Hdiv. cbn [lift]. unfold ret at 1.
      assert (Hmean : np_mean (map electromagnetic_flux_density ts) = mean).
      { unfold np_mean, mean. rewrite length_map, Hlen. reflexivity. }
      rewrite Hmean, Hsweep.
      rewrite <- !app_assoc. cbn [app map length].
      rewrite <- after_trials_add.
      replace (K + length rest * K)%nat
        with (S (length rest) * K)%nat by lia.
      reflexivity.
Qed.

(** ** The distance samples *)

Lemma nth_map_in_range {A : Type} (f : A -> R) (l : list A) (i : nat) (d : A) :
  (i < length l)%nat -> nth i (map f l) 0 = f (nth i l d).
Proof.
  intros Hi. rewrite (nth_indep _ 0 (f d)) by (rewrite length_map; exact Hi).
  apply map_nth.
Qed.

Lemma np_linspace_unfold (start stop : R) (m : nat) :
  np_linspace start stop (S (S m)) =
  map (fun i => INR i * ((stop - start) / INR (S m)) + start)
      (seq 0 (S m))
  ++ [stop].
Proof.
  change (np_linspace start stop (S (S m)))
    with (removelast
            (map (fun i => INR i * ((stop - start) / INR (S m)) + start)
                 (seq 0 (S (S m))))
          ++ [stop]).
  rewrite (seq_S (S m) 0), map_app. cbn [map].
  rewrite removelast_last. reflexivity.
Qed.

Lemma np_linspace_length (start stop : R) (n : nat) :
  length (np_linspace start stop n) = n.
Proof.
  destruct n as [| [| m]]; [reflexivity | reflexivity |].
  rewrite np_linspace_unfold, length_app, length_map, length_seq.
  simpl. lia.
Qed.

Lemma np_linspace_nth (start stop : R) (n i : nat) :
  (i < n)%nat ->
  nth i (np_linspace start stop n) 0 =
  start + INR i * ((stop - start) / INR (n - 1)).
Proof.
  intros Hi. destruct n as [| [| m]]; [lia | |].
  - assert (i = 0%nat) as -> by lia. simpl. ring.
  - rewrite np_linspace_unfold.
    replace (S (S m) - 1)%nat with (S m) by lia.
    assert (Hm : INR (S m) <> 0) by (apply not_0_INR; lia).
    destruct (Nat.lt_ge_cases i (S m)) as [Hlt | Hge].
    + rewrite app_nth1 by (rewrite length_map, length_seq; exact Hlt).
      rewrite (nth_map_in_range _ _ i 0%nat)
        by (rewrite length_seq; exact Hlt).
      rewrite seq_nth by exact Hlt. simpl (0 + i)%nat. ring.
    + assert (i = S m) as -> by lia.
      rewrite app_nth2 by (rewrite length_map, length_seq; lia).
      rewrite length_map, length_seq, Nat.sub_diag. cbn [nth]. field.
      exact Hm.
Qed.

Lemma user_distances_nth (i : nat) :
  (i < NUMBER_OF_DISTANCE_SAMPLES counts)%nat ->
  nth i (user_distances_from_center counts) 0 =
  0 + INR i * ((4000 - 0) / INR (NUMBER_OF_DISTANCE_SAMPLES counts - 1)).
Proof. intros Hi. apply np_linspace_nth. exact Hi. Qed.

Lemma user_distances_ascending (i j : nat) :
  (i < j)%nat -> (j < NUMBER_OF_DISTANCE_SAMPLES counts)%nat ->
  nth i (user_distances_from_center counts) 0 <
  nth j (user_distances_from_center counts) 0.
Proof.
  intros Hij Hj. rewrite !user_distances_nth by lia.
  assert (Hstep : 0 < (4000 - 0)
                      / INR (NUMBER_OF_DISTANCE_SAMPLES counts - 1)).
  { apply Rdiv_lt_0_compat; [lra |]. apply lt_0_INR. lia. }
  assert (Hlt : INR i < INR j) by (apply lt_INR; exact Hij).
  nra.
Qed.

(** ** The sweep *)

(** C5. The sweep returns three sequences of length
    [NUMBER_OF_DISTANCE_SAMPLES]; the distances start at 0, end at 4000,
    are evenly spaced and ascending; at each index the mean flux is the
    sum of the flux values of the [K] trials of that distance over [K],
    and the coverage probability is the number of successful trials
    over [K]. *)
Theorem sweep_result (s : rng) :
  (1 <= N)%nat -> (1 <= K)%nat ->
  exists (fluxes probabilities : list R) (tss : list (list TrialResult)),
    let M := NUMBER_OF_DISTANCE_SAMPLES counts in
    let ds := user_distances_from_center counts in
    run_simulation standard_normal counts s =
      (inr (ds, fluxes, probabilities),
       after_trials standard_normal counts (M * K) s)
    /\ length ds = M /\ length fluxes = M /\ length probabilities = M
    /\ (forall i, (i < M)%nat ->
          nth i ds 0 = 0 + INR i * ((4000 - 0) / INR (M - 1)))
    /\ ((2 <= M)%nat -> nth (M - 1) ds 0 = 4000)
    /\ (forall i j, (i < j)%nat -> (j < M)%nat -> nth i ds 0 < nth j ds 0)
    /\ length tss = M
    /\ (forall i, (i < M)%nat ->
          length (nth i tss []) = K
          /\ map inr (nth i tss []) =
             trials_of_sample standard_normal counts i (nth i ds 0) s
          /\ nth i fluxes 0 =
             np_sum (map electromagnetic_flux_density (nth i tss []))
             / INR K
          /\ nth i probabilities 0 =
             INR (successes (nth i tss [])) / INR K).
Proof.
  intros HN HK.
  assert (Hlen : length (user_distances_from_center counts)
                 = NUMBER_OF_DISTANCE_SAMPLES counts)
    by apply np_linspace_length.
  destruct (sweep_loop_spec (user_distances_from_center counts) HN HK [] [] s)
    as (tss & Hlens & Hidx & Hsweep).
  rewrite Hlen in Hlens, Hidx, Hsweep.
  cbn [app] in Hsweep.
  exists (map (fun ts => np_sum (map electromagnetic_flux_density ts) / INR K)
              tss),
         (map (fun ts => INR (successes ts) / INR K) tss),
         tss.
  cbn zeta.
  split.
  { unfold run_simulation, bind. rewrite Hsweep. reflexivity. }
  split; [exact Hlen |].
  split; [rewrite length_map; exact Hlens |].
  split; [rewrite length_map; exact Hlens |].
  split; [exact user_distances_nth |].
  split.
  { intros HM. rewrite user_distances_nth by lia. field.
    apply not_0_INR. lia. }
  split; [exact user_distances_ascending |].
  split; [exact Hlens |].
  intros i Hi. destruct (Hidx i Hi) as [Hl Hm].
  split; [exact Hl |]. split; [exact Hm |].
  split; rewrite (nth_map_in_range _ tss i [])
    by (rewrite Hlens; exact Hi); reflexivity.
Qed.

(** ** What the returned values satisfy *)

Lemma trial_at_flux_nonneg (d : R) (s : rng) (t : TrialResult) :
  trial_at standard_normal counts d s = inr t ->
  0 <= electromagnetic_flux_density t.
Proof.
  unfold trial_at, trial, bind. rewrite sample_topology_spec.
  cbn [fst snd].
  set (received := received_powers_watts _).
  unfold trial_metrics. destruct (np_max received) as [e | strongest];
    cbn [lift]; unfold raise, ret; cbn [fst]; intros Ht;
    [discriminate |].
  injection Ht as <-. cbn [electromagnetic_flux_density].
  apply Rmult_le_pos; [left; apply kappa_over_4pi_pos |].
  apply np_sum_nonneg. eapply Forall_impl; [| apply received_powers_pos].
  intros a Ha. simpl in Ha. lra.
Qed.

Lemma trials_flux_nonneg (i : nat) (d : R) (s : rng) (ts : list TrialResult) :
  map inr ts = trials_of_sample standard_normal counts i d s ->
  Forall (fun f => 0 <= f) (map electromagnetic_flux_density ts).
Proof.
  intros Hmap. apply Forall_forall. intros f Hf.
  apply in_map_iff in Hf. destruct Hf as (t & <- & Hin).
  assert (Hin' : In (@inr exn TrialResult t) (map inr ts))
    by (apply in_map; exact Hin).
  rewrite Hmap in Hin'. unfold trials_of_sample in Hin'.
  apply in_map_iff in Hin'. destruct Hin' as (j & Hj & _).
  eapply trial_at_flux_nonneg. exact Hj.
Qed.

(** ** The runs that do not reach a trial, or do not finish one *)

Lemma run_simulation_no_samples (s : rng) :
  NUMBER_OF_DISTANCE_SAMPLES counts = 0%nat ->
  run_simulation standard_normal counts s = (inr ([], [], []), s).
Proof.
  intros HM. unfold run_simulation, user_distances_from_center.
  rewrite HM. reflexivity.
Qed.

Lemma user_distances_cons :
  (1 <= NUMBER_OF_DISTANCE_SAMPLES counts)%nat ->
  exists d rest, user_distances_from_center counts = d :: rest.
Proof.
  intros HM. pose proof (np_linspace_length 0 4000
                           (NUMBER_OF_DISTANCE_SAMPLES counts)) as Hlen.
  fold (user_distances_from_center counts) in Hlen.
  destruct (user_distances_from_center counts) as [| d rest].
  - simpl in Hlen. lia.
  - exists d, rest. reflexivity.
Qed.

Lemma run_simulation_no_iterations (s : rng) :
  (1 <= NUMBER_OF_DISTANCE_SAMPLES counts)%nat -> K = 0%nat ->
  run_simulation standard_normal counts s = (inl ZeroDivisionError, s).
Proof.
  intros HM HK. destruct (user_distances_cons HM) as (d & rest & Hds).
  unfold run_simulation. rewrite Hds. unfold bind at 1.
  cbn [sweep_loop]. fold K. rewrite HK. reflexivity.
Qed.

Lemma run_simulation_no_stations (s : rng) :
  (1 <= NUMBER_OF_DISTANCE_SAMPLES counts)%nat -> (1 <= K)%nat ->
  N = 0%nat ->
  run_simulation standard_normal counts s = (inl ValueError, s).
Proof.
  intros HM HK HN. destruct (user_distances_cons HM) as (d & rest & Hds).
  assert (Htrial : trial standard_normal counts d s = (inl ValueError, s)).
  { unfold trial, bind. rewrite sample_topology_spec. rewrite HN.
    reflexivity. }
  unfold run_simulation. rewrite Hds. unfold bind at 1.
  cbn [sweep_loop]. fold K. destruct K as [| k]; [lia |].
  unfold bind at 1. cbn [monte_carlo_loop]. unfold bind at 1.
  rewrite Htrial. reflexivity.
Qed.

(** C6. In a returned sweep result every coverage probability lies in
    [[0, 1]] and every mean flux is at least 0. *)
Theorem sweep_result_bounds (s : rng) (ds fluxes probabilities : list R) :
  fst (run_simulation standard_normal counts s) =
    inr (ds, fluxes, probabilities) ->
  Forall (fun p => 0 <= p <= 1) probabilities
  /\ Forall (fun f => 0 <= f) fluxes.
Proof.
  intros Hrun.
  destruct (Nat.eq_dec (NUMBER_OF_DISTANCE_SAMPLES counts) 0) as [HM | HM].
  { rewrite (run_simulation_no_samples s HM) in Hrun.
    injection Hrun as _ <- <-. split; constructor. }
  destruct (Nat.eq_dec K 0) as [HK | HK].
  { rewrite run_simulation_no_iterations in Hrun by lia. discriminate. }
  destruct (Nat.eq_dec N 0) as [HN | HN].
  { rewrite run_simulation_no_stations in Hrun by lia. discriminate. }
  destruct (sweep_loop_spec (user_distances_from_center counts)
              ltac:(lia) ltac:(lia) [] [] s)
    as (tss & Hlens & Hidx & Hsweep).
  unfold run_simulation, bind in Hrun. rewrite Hsweep in Hrun.
  cbn [fst snd app ret] in Hrun. unfold ret in Hrun. cbn [fst] in Hrun.
  injection Hrun as _ <- <-.
  assert (HK0 : 0 < INR K) by (apply lt_0_INR; lia).
  assert (Hall : forall ts, In ts tss ->
            length ts = K
            /\ Forall (fun f => 0 <= f)
                 (map electromagnetic_flux_density ts)).
  { intros ts Hin. destruct (In_nth _ _ [] Hin) as (i & Hi & <-).
    rewrite Hlens in Hi. destruct (Hidx i Hi) as [Hl Hm].
    split; [exact Hl |]. eapply trials_flux_nonneg. exact Hm. }
  split; apply Forall_forall; intros x Hx; apply in_map_iff in Hx;
    destruct Hx as (ts & <- & Hin); destruct (Hall ts Hin) as [Hl Hf].
  - pose proof (successes_le_length ts) as Hle. rewrite Hl in Hle.
    apply le_INR in Hle. pose proof (pos_INR (successes ts)) as Hpos.
    split.
    + apply Rmult_le_pos; [exact Hpos |]. left.
      apply Rinv_0_lt_compat. exact HK0.
    + apply Rmult_le_reg_r with (INR K); [exact HK0 |].
      unfold Rdiv. rewrite Rmult_assoc, Rinv_l by lra. lra.
  - apply Rmult_le_pos; [apply np_sum_nonneg; exact Hf |]. left.
    apply Rinv_0_lt_compat. exact HK0.
Qed.

(** C7 (as the code has it).  The driver checks nothing beforehand and
    has no error of its own: without distance samples it returns three
    empty sequences; with a distance sample but no iteration the
    division by the iteration count raises [ZeroDivisionError] at the
    first distance; with a sample and an iteration but no station
    [np.max] raises [ValueError] in the first trial; with the three
    counts positive it returns a result. *)
Theorem run_simulation_outcomes (s : rng) :
  match NUMBER_OF_DISTANCE_SAMPLES counts,
        NUMBER_OF_MONTE_CARLO_ITERATIONS counts,
        NUMBER_OF_BASE_STATIONS counts with
  | O, _, _ =>
      run_simulation standard_normal counts s = (inr ([], [], []), s)
  | S _, O, _ =>
      run_simulation standard_normal counts s = (inl ZeroDivisionError, s)
  | S _, S _, O =>
      run_simulation standard_normal counts s = (inl ValueError, s)
  | S _, S _, S _ =>
      exists fluxes probabilities,
        fst (run_simulation standard_normal counts s) =
          inr (user_distances_from_center counts, fluxes, probabilities)
  end.
Proof.
  pose proof (run_simulation_no_samples s) as Hsamples.
  pose proof (run_simulation_no_iterations s) as Hiterations.
  pose proof (run_simulation_no_stations s) as Hstations.
  pose proof (sweep_loop_spec (user_distances_from_center counts)) as Hloop.
  subst N K.
  destruct (NUMBER_OF_DISTANCE_SAMPLES counts) as [| m].
  { apply Hsamples. reflexivity. }
  destruct (NUMBER_OF_MONTE_CARLO_ITERATIONS counts) as [| k].
  { apply Hiterations; [lia | reflexivity]. }
  destruct (NUMBER_OF_BASE_STATIONS counts) as [| n].
  { apply Hstations; [lia | lia | reflexivity]. }
  destruct (Hloop ltac:(lia) ltac:(lia) [] [] s) as (tss & _ & _ & Hsweep).
  do 2 eexists. unfold run_simulation, bind.
  change (np_linspace 0 4000 (S m))
    with (user_distances_from_center counts) in *.
  rewrite Hsweep. reflexivity.
Qed.

(** X18.  The sampler reads the ambient generator and nothing else: an
    invocation uses the next [2 N] standard normal draws, the first [N]
    scaled by the spread for the X coordinates and the following [N] for
    the Y coordinates, and leaves the generator [2 N] draws further. *)
Theorem sample_topology_reads_generator (s : rng) :
  sample_topology standard_normal counts s =
  (inr (map (fun z => 0 + CITY_DISTRIBUTION_SPREAD_METERS * z)
            (firstn N (next_draws standard_normal (N + N) s)),
        map (fun z => 0 + CITY_DISTRIBUTION_SPREAD_METERS * z)
            (skipn N (next_draws standard_normal (N + N) s))),
   advance standard_normal (N + N) s).
Proof.
  rewrite sample_topology_spec, next_draws_add.
  rewrite firstn_app, skipn_app, next_draws_length, Nat.sub_diag.
  rewrite firstn_all2 by (rewrite next_draws_length; lia).
  rewrite skipn_all2 by (rewrite next_draws_length; lia).
  cbn [firstn skipn]. rewrite app_nil_r. reflexivity.
Qed.

End DriverFacts.

(** ** Worked instances of the per-trial and sweep theorems *)

Lemma coverage_decision_witness :
  (1 <= NUMBER_OF_BASE_STATIONS reference_counts)%nat
  /\ exists t : TrialResult,
       trial_at counting_normal reference_counts 0 0%nat = inr t
       /\ (coverage_success t = true <->
           signal_to_interference_noise_ratio t > 5 / 10).
Proof.
  split; [simpl; lia |].
  destruct (coverage_decision counting_normal reference_counts 0 0%nat)
    as (xs & ys & t & _ & Ht & _ & _ & _ & _ & Hcov & _); [simpl; lia |].
  exists t. split; [exact Ht | exact Hcov].
Defined.

Lemma flux_density_of_trial_witness :
  (1 <= NUMBER_OF_BASE_STATIONS reference_counts)%nat
  /\ exists t : TrialResult,
       trial_at counting_normal reference_counts 4000 0%nat = inr t
       /\ 0 <= electromagnetic_flux_density t.
Proof.
  split; [simpl; lia |].
  destruct (flux_density_of_trial counting_normal reference_counts 4000 0%nat)
    as (xs & ys & t & _ & _ & _ & Ht & _ & _ & _ & Hpos); [simpl; lia |].
  exists t. split; [exact Ht | exact Hpos].
Defined.

Lemma sinr_well_defined_witness :
  (1 <= NUMBER_OF_BASE_STATIONS reference_counts)%nat
  /\ exists t : TrialResult,
       trial_at counting_normal reference_counts 2000 0%nat = inr t
       /\ 0 < interference_watts t + NOISE_FLOOR_WATTS
       /\ 0 <= signal_to_interference_noise_ratio t.
Proof.
  split; [simpl; lia |].
  destruct (sinr_well_defined counting_normal reference_counts 2000 0%nat)
    as (t & Ht & _ & _ & _ & _ & Hden & _ & Hpos); [simpl; lia |].
  exists t. split; [exact Ht |]. split; [exact Hden | exact Hpos].
Defined.

Lemma sweep_result_witness :
  (1 <= NUMBER_OF_BASE_STATIONS reference_counts)%nat
  /\ (1 <= NUMBER_OF_MONTE_CARLO_ITERATIONS reference_counts)%nat
  /\ exists fluxes probabilities : list R,
       fst (run_simulation counting_normal reference_counts 0%nat) =
         inr (user_distances_from_center reference_counts, fluxes, probabilities)
       /\ length fluxes = 50%nat /\ length probabilities = 50%nat.
Proof.
  split; [simpl; lia |]. split; [simpl; lia |].
  destruct (sweep_result counting_normal reference_counts 0%nat)
    as (fluxes & probabilities & tss & Hrun & _ & Hf & Hp & _);
    [simpl; lia | simpl; lia |].
  exists fluxes, probabilities.
  split; [rewrite Hrun; reflexivity |]. split; [exact Hf | exact Hp].
Defined.

Lemma sweep_result_bounds_witness :
  exists ds fluxes probabilities : list R,
    fst (run_simulation counting_normal small_counts 0%nat) =
      inr (ds, fluxes, probabilities)
    /\ Forall (fun p => 0 <= p <= 1) probabilities
    /\ Forall (fun f => 0 <= f) fluxes.
Proof.
  destruct (sweep_loop_spec counting_normal small_counts
              (user_distances_from_center small_counts)
              ltac:(simpl; lia) ltac:(simpl; lia) [] [] 0%nat)
    as (tss & _ & _ & Hsweep).
  assert (Hrun : fst (run_simulation counting_normal small_counts 0%nat) =
                 inr (user_distances_from_center small_counts,
                      fst ([] ++ map (fun ts =>
                              np_sum (map electromagnetic_flux_density ts)
                              / INR 2) tss,
                           [] ++ map (fun ts => INR (successes ts) / INR 2)
                                   tss),
                      snd ([] ++ map (fun ts =>
                              np_sum (map electromagnetic_flux_density ts)
                              / INR 2) tss,
                           [] ++ map (fun ts => INR (successes ts) / INR 2)
                                   tss))).
  { unfold run_simulation, bind. rewrite Hsweep. reflexivity. }
  do 3 eexists. split; [exact Hrun |].
  exact (sweep_result_bounds counting_normal small_counts 0%nat _ _ _ Hrun).
Defined.

(** ** The driver without distance samples *)

(** With the number of distance samples at zero the driver raises
    nothing and returns three empty sequences. *)
Lemma no_configuration_error_counterexample :
  (NUMBER_OF_DISTANCE_SAMPLES no_sample_counts <= 0)%nat
  /\ run_simulation counting_normal no_sample_counts 0%nat =
     (inr ([], [], []), 0%nat).
Proof. split; [simpl; lia | reflexivity]. Qed.

(** ** The accumulation on binary64 *)

Section Binary64Facts.
Import PrimFloat.
Variable add_reduce : list float -> float.
Variable noise_floor kappa_over_4pi : float.




End Binary64Facts.


(** ** Values of the constants *)

Lemma Rpower_10_rational_pow (p q : nat) :
  (0 < q)%nat -> Rpower 10 (INR p / INR q) ^ q = 10 ^ p.
Proof.
  intros Hq.
  rewrite <- (Rpower_pow q) by (unfold Rpower; apply exp_pos).
  rewrite Rpower_mult.
  replace (INR p / INR q * INR q) with (INR p)
    by (field; apply not_0_INR; lia).
  apply Rpower_pow. lra.
Qed.

Lemma quotient_pow (n d : Z) (q : nat) :
  (0 < d)%Z ->
  (IZR n / IZR d) ^ q * IZR (d ^ Z.of_nat q) = IZR (n ^ Z.of_nat q).
Proof.
  intros Hd. rewrite <- !pow_IZR, <- Rpow_mult_distr. f_equal.
  field. apply not_0_IZR. lia.
Qed.

Lemma Rpower_10_above (p q : nat) (n d : Z) :
  (0 < q)%nat -> (0 <= n)%Z -> (0 < d)%Z ->
  (n ^ Z.of_nat q < 10 ^ Z.of_nat p * d ^ Z.of_nat q)%Z ->
  IZR n / IZR d < Rpower 10 (INR p / INR q).
Proof.
  intros Hq Hn Hd Hlt.
  destruct (Rlt_le_dec (IZR n / IZR d) (Rpower 10 (INR p / INR q)))
    as [H | H]; [exact H | exfalso].
  assert (Hx : 0 <= Rpower 10 (INR p / INR q))
    by (left; unfold Rpower; apply exp_pos).
  pose proof (pow_incr _ _ q (conj Hx H)) as Hpow.
  rewrite Rpower_10_rational_pow in Hpow by exact Hq.
  assert (Hdq : 0 < IZR (d ^ Z.of_nat q))
    by (apply IZR_lt; apply Z.pow_pos_nonneg; lia).
  apply (Rmult_le_compat_r _ _ _ (Rlt_le _ _ Hdq)) in Hpow.
  rewrite quotient_pow in Hpow by exact Hd.
  change 10 with (IZR 10) in Hpow. rewrite pow_IZR, <- mult_IZR in Hpow.
  apply le_IZR in Hpow. lia.
Qed.

Lemma Rpower_10_below (p q : nat) (n d : Z) :
  (0 < q)%nat -> (0 <= n)%Z -> (0 < d)%Z ->
  (10 ^ Z.of_nat p * d ^ Z.of_nat q < n ^ Z.of_nat q)%Z ->
  Rpower 10 (INR p / INR q) < IZR n / IZR d.
Proof.
  intros Hq Hn Hd Hlt.
  destruct (Rlt_le_dec (Rpower 10 (INR p / INR q)) (IZR n / IZR d))
    as [H | H]; [exact H | exfalso].
  assert (Ha : 0 <= IZR n / IZR d).
  { apply Rmult_le_pos; [apply IZR_le; exact Hn |].
    left. apply Rinv_0_lt_compat. apply IZR_lt. exact Hd. }
  pose proof (pow_incr _ _ q (conj Ha H)) as Hpow.
  rewrite Rpower_10_rational_pow in Hpow by exact Hq.
  assert (Hdq : 0 < IZR (d ^ Z.of_nat q))
    by (apply IZR_lt; apply Z.pow_pos_nonneg; lia).
  apply (Rmult_le_compat_r _ _ _ (Rlt_le _ _ Hdq)) in Hpow.
  rewrite quotient_pow in Hpow by exact Hd.
  change 10 with (IZR 10) in Hpow. rewrite pow_IZR, <- mult_IZR in Hpow.
  apply le_IZR in Hpow. lia.
Qed.

Lemma transmit_power_exponent :
  (TRANSMIT_POWER_DBM - 30) / 10 = INR 131 / INR 40.
Proof.
  unfold TRANSMIT_POWER_DBM. rewrite !INR_IZR_INZ. simpl Z.of_nat. lra.
Qed.

(** X1. The transmit power, [10 ** ((62.75 - 30) / 10)] watts, lies
    between 1883.6 and 1883.7, as the comment of line 11 says. *)
Theorem transmit_power_value :
  18836 / 10 < TRANSMIT_POWER_WATTS < 18837 / 10.
Proof.
  unfold TRANSMIT_POWER_WATTS. rewrite transmit_power_exponent. split.
  - apply (Rpower_10_above 131 40 18836 10);
      [lia | lia | lia | vm_compute; reflexivity].
  - apply (Rpower_10_below 131 40 18837 10);
      [lia | lia | lia | vm_compute; reflexivity].
Qed.

Lemma noise_floor_split :
  NOISE_FLOOR_WATTS = Rpower 10 (INR 379 / INR 1000) * / 10 ^ 13.
Proof.
  unfold NOISE_FLOOR_WATTS, NOISE_FLOOR_DBM.
  replace ((- (9621 / 100) - 30) / 10)
    with (INR 379 / INR 1000 + - INR 13)
    by (rewrite !INR_IZR_INZ; simpl Z.of_nat; lra).
  rewrite Rpower_plus, Rpower_Ropp, Rpower_pow by lra. reflexivity.
Qed.

(** X2. The noise floor, [10 ** ((-96.21 - 30) / 10)] watts, lies between
    [2.39e-13] and [2.40e-13], as the comment of line 16 says. *)
Theorem noise_floor_value :
  239 / 100 * / 10 ^ 13 < NOISE_FLOOR_WATTS < 240 / 100 * / 10 ^ 13.
Proof.
  rewrite noise_floor_split.
  assert (Hscale : 0 < / 10 ^ 13)
    by (apply Rinv_0_lt_compat; apply pow_lt; lra).
  split; apply Rmult_lt_compat_r; try exact Hscale.
  - apply (Rpower_10_above 379 1000 239 100);
      [lia | lia | lia | vm_compute; reflexivity].
  - apply (Rpower_10_below 379 1000 240 100);
      [lia | lia | lia | vm_compute; reflexivity].
Qed.

Lemma decibel_exponent (n : nat) :
  - (INR n / 100) / 10 = - (INR n / INR 1000).
Proof.
  replace (INR 1000) with 1000
    by (rewrite INR_IZR_INZ; simpl Z.of_nat; reflexivity).
  field.
Qed.

Lemma one_half_in_decibels :
  Rpower 10 (- (302 / 100) / 10) < 5 / 10
  /\ 5 / 10 < Rpower 10 (- (301 / 100) / 10).
Proof.
  replace 302 with (INR 302)
    by (rewrite INR_IZR_INZ; simpl Z.of_nat; reflexivity).
  replace 301 with (INR 301)
    by (rewrite INR_IZR_INZ; simpl Z.of_nat; reflexivity).
  rewrite !decibel_exponent, !Rpower_Ropp.
  assert (Hlo : IZR 2 / IZR 1 < Rpower 10 (INR 302 / INR 1000))
    by (apply (Rpower_10_above 302 1000 2 1);
        [lia | lia | lia | vm_compute; reflexivity]).
  assert (Hhi : Rpower 10 (INR 301 / INR 1000) < IZR 2 / IZR 1)
    by (apply (Rpower_10_below 301 1000 2 1);
        [lia | lia | lia | vm_compute; reflexivity]).
  assert (Hpos : 0 < Rpower 10 (INR 301 / INR 1000))
    by (unfold Rpower; apply exp_pos).
  replace (5 / 10) with (/ 2) by lra.
  split; apply Rinv_lt_contravar; try lra; apply Rmult_lt_0_compat; lra.
Qed.

Lemma trial_metrics_success (received : list R) (t : TrialResult) :
  trial_metrics received = inr t ->
  (coverage_success t = true <->
   signal_to_interference_noise_ratio t > 5 / 10).
Proof.
  unfold trial_metrics. destruct (np_max received) as [e | strongest];
    [discriminate |].
  intros Ht. injection Ht as <-.
  cbn [coverage_success signal_to_interference_noise_ratio].
  destruct (Rgt_dec _ _) as [Hgt | Hngt]; split; intros H;
    try assumption; try reflexivity; try discriminate.
  contradiction.
Qed.

(** X3. The threshold 0.5 of line 68 sits between -3.02 dB and -3.01 dB:
    a trial whose ratio is at least [10 ** (-3.01 / 10)] is a coverage
    success, every success has a ratio above [10 ** (-3.02 / 10)], and
    that is below the ratio 1 of 0 dB. *)
Theorem coverage_threshold_in_decibels (received : list R) (t : TrialResult) :
  trial_metrics received = inr t ->
  (Rpower 10 (- (301 / 100) / 10) <= signal_to_interference_noise_ratio t ->
   coverage_success t = true)
  /\ (coverage_success t = true ->
      Rpower 10 (- (302 / 100) / 10) < signal_to_interference_noise_ratio t)
  /\ Rpower 10 (- (301 / 100) / 10) < 1.
Proof.
  intros Ht. pose proof (trial_metrics_success received t Ht) as Hcov.
  destruct one_half_in_decibels as [Hlo Hhi].
  split; [| split].
  - intros H. apply Hcov. lra.
  - intros H. apply Hcov in H. lra.
  - rewrite <- (Rpower_O 10) by lra. unfold Rpower.
    apply exp_increasing.
    assert (0 < ln 10) by (rewrite <- ln_1; apply ln_increasing; lra).
    nra.
Qed.


(** ** More on the path-loss function *)

Lemma path_loss_le_at_zero (r : R) :
  get_path_loss_attenuation_factor r <= get_path_loss_attenuation_factor 0.
Proof.
  assert (Heven : get_path_loss_attenuation_factor r =
                  get_path_loss_attenuation_factor (Rabs r)).
  { unfold get_path_loss_attenuation_factor. rewrite pow2_abs.
    reflexivity. }
  rewrite Heven. destruct (Rabs_pos r) as [Hpos | Hzero].
  - left. apply path_loss_decreasing; [lra | exact Hpos].
  - rewrite <- Hzero. right. reflexivity.
Qed.

(** X4. On every real distance, negative ones included, the attenuation
    factor depends on the square only: it is even, strictly positive and
    at most its value at distance zero. *)
Theorem path_loss_even_and_bounded (r : R) :
  get_path_loss_attenuation_factor (- r) = get_path_loss_attenuation_factor r
  /\ 0 < get_path_loss_attenuation_factor r
  /\ get_path_loss_attenuation_factor r <= get_path_loss_attenuation_factor 0.
Proof.
  split.
  - unfold get_path_loss_attenuation_factor.
    replace ((- r) ^ 2) with (r ^ 2) by ring. reflexivity.
  - split; [apply path_loss_pos | apply path_loss_le_at_zero].
Qed.

(** ** Distances and received powers *)

Lemma distances_2d_length (xs ys : list R) (d : R) :
  length (distances_2d_meters xs ys d) = Nat.min (length xs) (length ys).
Proof.
  unfold distances_2d_meters. rewrite length_map. apply length_combine.
Qed.

(** X5. Lines 53-58 give one distance and one received power per pair
    of coordinates; the distances are not negative and every received
    power is strictly positive and at most the transmit power times the
    attenuation at distance zero. *)
Theorem received_powers_bounds (xs ys : list R) (d : R) :
  length (received_powers_watts (distances_2d_meters xs ys d)) =
    Nat.min (length xs) (length ys)
  /\ Forall (fun r => 0 <= r) (distances_2d_meters xs ys d)
  /\ Forall (fun p =>
               0 < p <=
               TRANSMIT_POWER_WATTS * get_path_loss_attenuation_factor 0)
            (received_powers_watts (distances_2d_meters xs ys d)).
Proof.
  split; [rewrite received_powers_length; apply distances_2d_length |].
  split.
  - unfold distances_2d_meters. apply Forall_forall. intros r Hr.
    apply in_map_iff in Hr. destruct Hr as (xy & <- & _). apply sqrt_pos.
  - unfold received_powers_watts, get_path_loss_attenuation_factor_vec.
    rewrite map_map. apply Forall_forall. intros p Hp.
    apply in_map_iff in Hp. destruct Hp as (r & <- & _).
    pose proof transmit_power_pos as HPt.
    pose proof (path_loss_pos r) as Hpos.
    pose proof (path_loss_le_at_zero r) as Hle.
    split; [apply Rmult_lt_0_compat; assumption |].
    apply Rmult_le_compat_l; lra.
Qed.

(** ** The flux density *)

Lemma np_sum_map_scal (c : R) (f : R -> R) (l : list R) :
  np_sum (map (fun x => c * f x) l) = c * np_sum (map f l).
Proof.
  induction l as [| x l IH]; simpl; [| rewrite IH]; ring.
Qed.

Lemma np_sum_map_le (f : R -> R) (b : R) (l : list R) :
  (forall x, f x <= b) -> np_sum (map f l) <= INR (length l) * b.
Proof.
  intros Hb. induction l as [| x l IH].
  - simpl. lra.
  - cbn [map np_sum fold_right]. fold (np_sum (map f l)).
    rewrite length_cons, S_INR. specialize (Hb x). lra.
Qed.

Lemma np_sum_map_pos (f : R -> R) (l : list R) :
  l <> [] -> (forall x, 0 < f x) -> 0 < np_sum (map f l).
Proof.
  intros Hne Hpos. destruct l as [| x l]; [congruence |].
  cbn [map np_sum fold_right]. fold (np_sum (map f l)).
  assert (0 <= np_sum (map f l)).
  { apply np_sum_nonneg. apply Forall_forall. intros y Hy.
    apply in_map_iff in Hy. destruct Hy as (z & <- & _). left. apply Hpos. }
  specialize (Hpos x). lra.
Qed.

Lemma trial_metrics_flux (received : list R) (t : TrialResult) :
  trial_metrics received = inr t ->
  received <> []
  /\ electromagnetic_flux_density t =
     PATH_LOSS_CONSTANT_KAPPA / (4 * PI) * np_sum received.
Proof.
  unfold trial_metrics. destruct received as [| x rest]; [discriminate |].
  cbn [np_max]. intros Ht. injection Ht as <-. split; [discriminate |].
  reflexivity.
Qed.

Lemma received_powers_sum (distances : list R) :
  np_sum (received_powers_watts distances) =
  TRANSMIT_POWER_WATTS / PATH_LOSS_CONSTANT_KAPPA
  * np_sum (map (fun r =>
                   Rpower (r ^ 2 + BASE_STATION_HEIGHT_METERS ^ 2)
                          (- PATH_LOSS_EXPONENT_ALPHA / 2))
                distances).
Proof.
  unfold received_powers_watts, get_path_loss_attenuation_factor_vec.
  rewrite map_map. unfold get_path_loss_attenuation_factor.
  rewrite <- np_sum_map_scal. f_equal. apply map_ext. intros r.
  unfold Rdiv. ring.
Qed.

Lemma flux_of_distances (distances : list R) (t : TrialResult) :
  trial_metrics (received_powers_watts distances) = inr t ->
  distances <> []
  /\ electromagnetic_flux_density t =
     TRANSMIT_POWER_WATTS / (4 * PI)
     * np_sum (map (fun r =>
                      Rpower (r ^ 2 + BASE_STATION_HEIGHT_METERS ^ 2)
                             (- PATH_LOSS_EXPONENT_ALPHA / 2))
                   distances).
Proof.
  intros Ht. destruct (trial_metrics_flux _ _ Ht) as [Hne Hflux].
  split.
  - intros ->. apply Hne. reflexivity.
  - rewrite Hflux, received_powers_sum.
    pose proof kappa_pos. pose proof PI_RGT_0. field. lra.
Qed.

(** X6. The flux density of a trial does not depend on the path-loss
    constant: [kappa] cancels, and the flux is
    [Pt / (4 pi) * sum (r_i^2 + h^2)^(-alpha/2)] over the stations. *)
Theorem flux_density_without_kappa (distances : list R) (t : TrialResult) :
  trial_metrics (received_powers_watts distances) = inr t ->
  electromagnetic_flux_density t =
  TRANSMIT_POWER_WATTS / (4 * PI)
  * np_sum (map (fun r =>
                   Rpower (r ^ 2 + BASE_STATION_HEIGHT_METERS ^ 2)
                          (- PATH_LOSS_EXPONENT_ALPHA / 2))
                distances).
Proof. intros Ht. apply (flux_of_distances distances t Ht). Qed.

Lemma height_term_le (r : R) :
  Rpower (r ^ 2 + BASE_STATION_HEIGHT_METERS ^ 2)
         (- PATH_LOSS_EXPONENT_ALPHA / 2)
  <= Rpower BASE_STATION_HEIGHT_METERS (- PATH_LOSS_EXPONENT_ALPHA).
Proof.
  pose proof (path_loss_le_at_zero r) as Hle.
  rewrite path_loss_at_zero in Hle.
  unfold get_path_loss_attenuation_factor in Hle.
  pose proof kappa_pos as Hk.
  replace (1 / PATH_LOSS_CONSTANT_KAPPA) with (/ PATH_LOSS_CONSTANT_KAPPA)
    in Hle by (unfold Rdiv; ring).
  apply Rmult_le_reg_l with (/ PATH_LOSS_CONSTANT_KAPPA);
    [apply Rinv_0_lt_compat; exact Hk | exact Hle].
Qed.

Lemma flux_bounds_of_distances (distances : list R) (t : TrialResult) :
  trial_metrics (received_powers_watts distances) = inr t ->
  0 < electromagnetic_flux_density t
  /\ electromagnetic_flux_density t <=
     INR (length distances)
     * (TRANSMIT_POWER_WATTS / (4 * PI)
        * Rpower BASE_STATION_HEIGHT_METERS (- PATH_LOSS_EXPONENT_ALPHA)).
Proof.
  intros Ht. destruct (flux_of_distances distances t Ht) as [Hne Hflux].
  rewrite Hflux.
  assert (Hc : 0 < TRANSMIT_POWER_WATTS / (4 * PI)).
  { apply Rdiv_lt_0_compat; [apply transmit_power_pos |].
    pose proof PI_RGT_0. lra. }
  split.
  - apply Rmult_lt_0_compat; [exact Hc |].
    apply np_sum_map_pos; [exact Hne |]. intros r. unfold Rpower.
    apply exp_pos.
  - pose proof (np_sum_map_le _ _ distances height_term_le) as Hle.
    apply (Rmult_le_compat_l _ _ _ (Rlt_le _ _ Hc)) in Hle. lra.
Qed.

(** X7. The flux density of a trial is strictly positive and at most
    the number of stations times [Pt / (4 pi) * h^(-alpha)]. *)
Theorem flux_density_bounds (distances : list R) (t : TrialResult) :
  trial_metrics (received_powers_watts distances) = inr t ->
  0 < electromagnetic_flux_density t
  /\ electromagnetic_flux_density t <=
     INR (length distances)
     * (TRANSMIT_POWER_WATTS / (4 * PI)
        * Rpower BASE_STATION_HEIGHT_METERS (- PATH_LOSS_EXPONENT_ALPHA)).
Proof. apply flux_bounds_of_distances. Qed.

(** ** The ratio *)

Lemma trial_metrics_inv (received : list R) (t : TrialResult) :
  trial_metrics received = inr t ->
  exists x rest,
    received = x :: rest
    /\ strongest_signal_watts t = fold_left Rmax rest x
    /\ total_received_power_watts t = np_sum received
    /\ interference_watts t = np_sum received - fold_left Rmax rest x
    /\ signal_to_interference_noise_ratio t =
       fold_left Rmax rest x
       / (np_sum received - fold_left Rmax rest x + NOISE_FLOOR_WATTS)
    /\ electromagnetic_flux_density t =
       PATH_LOSS_CONSTANT_KAPPA / (4 * PI) * np_sum received.
Proof.
  unfold trial_metrics. destruct received as [| x rest]; [discriminate |].
  cbn [np_max]. intros Ht. injection Ht as <-. exists x, rest.
  repeat split; reflexivity.
Qed.

(** X8. The ratio of a trial is strictly positive and at most the
    strongest power over the noise floor, and the strongest power is at
    most the transmit power times the attenuation at distance zero. *)
Theorem sinr_bounds (distances : list R) (t : TrialResult) :
  trial_metrics (received_powers_watts distances) = inr t ->
  0 < signal_to_interference_noise_ratio t
  /\ signal_to_interference_noise_ratio t <=
     strongest_signal_watts t / NOISE_FLOOR_WATTS
  /\ strongest_signal_watts t <=
     TRANSMIT_POWER_WATTS * get_path_loss_attenuation_factor 0.
Proof.
  intros Ht.
  destruct (trial_metrics_inv _ _ Ht)
    as (x & rest & Hrec & Hstr & _ & _ & Hsinr & _).
  pose proof (received_powers_pos distances) as Hpos. rewrite Hrec in Hpos.
  assert (Hnn : Forall (fun q => 0 <= q) (x :: rest)).
  { eapply Forall_impl; [| exact Hpos]. intros a Ha. simpl in Ha. lra. }
  pose proof (fold_left_Rmax_in rest x) as Hin.
  pose proof (np_sum_ge_member _ _ Hnn Hin) as Hle.
  assert (Hs : 0 < fold_left Rmax rest x).
  { rewrite Forall_forall in Hpos. apply Hpos. exact Hin. }
  pose proof noise_floor_pos as Hnoise.
  rewrite Hsinr, Hstr, Hrec.
  split; [apply Rdiv_lt_0_compat; lra |].
  split.
  - unfold Rdiv. apply Rmult_le_compat_l; [lra |].
    apply Rinv_le_contravar; lra.
  - rewrite <- Hrec in Hin. unfold received_powers_watts,
      get_path_loss_attenuation_factor_vec in Hin.
    rewrite map_map in Hin. apply in_map_iff in Hin.
    destruct Hin as (r & <- & _).
    apply Rmult_le_compat_l; [left; apply transmit_power_pos |].
    apply path_loss_le_at_zero.
Qed.

(** X9. With a single station the interference is zero and the ratio is
    the received power over the noise floor. *)
Theorem single_station_has_no_interference (r : R) :
  exists t : TrialResult,
    trial_metrics (received_powers_watts [r]) = inr t
    /\ interference_watts t = 0
    /\ signal_to_interference_noise_ratio t =
       TRANSMIT_POWER_WATTS * get_path_loss_attenuation_factor r
       / NOISE_FLOOR_WATTS.
Proof.
  eexists. split; [reflexivity |].
  cbn [interference_watts signal_to_interference_noise_ratio
       received_powers_watts get_path_loss_attenuation_factor_vec map
       np_sum fold_right fold_left].
  split; [ring |]. f_equal. ring.
Qed.

Lemma fold_left_Rmax_app (l : list R) (x p : R) :
  fold_left Rmax (l ++ [p]) x = Rmax (fold_left Rmax l x) p.
Proof. rewrite fold_left_app. reflexivity. Qed.

(** X10. Appending a station that is not stronger than the strongest
    one keeps the strongest power, adds its power to the total, strictly
    lowers the ratio and strictly raises the flux density. *)
Theorem one_more_station (received : list R) (p : R) (t : TrialResult) :
  Forall (fun q => 0 < q) received ->
  trial_metrics received = inr t ->
  0 < p -> p <= strongest_signal_watts t ->
  exists t' : TrialResult,
    trial_metrics (received ++ [p]) = inr t'
    /\ strongest_signal_watts t' = strongest_signal_watts t
    /\ total_received_power_watts t' = total_received_power_watts t + p
    /\ signal_to_interference_noise_ratio t' <
       signal_to_interference_noise_ratio t
    /\ electromagnetic_flux_density t < electromagnetic_flux_density t'.
Proof.
  intros Hpos Ht Hp Hple.
  destruct (trial_metrics_inv _ _ Ht)
    as (x & rest & -> & Hstr & Htot & _ & Hsinr & Hflux).
  assert (Hnn : Forall (fun q => 0 <= q) (x :: rest)).
  { eapply Forall_impl; [| exact Hpos]. intros a Ha. simpl in Ha. lra. }
  pose proof (fold_left_Rmax_in rest x) as Hin.
  pose proof (np_sum_ge_member _ _ Hnn Hin) as Hle.
  pose proof noise_floor_pos as Hnoise.
  pose proof kappa_over_4pi_pos as Hk.
  rewrite Hstr in Hple.
  eexists. split; [reflexivity |].
  cbn [strongest_signal_watts total_received_power_watts
       signal_to_interference_noise_ratio electromagnetic_flux_density].
  rewrite fold_left_Rmax_app, np_sum_app, Hstr, Htot, Hsinr, Hflux.
  rewrite (Rmax_left _ _ Hple). change (np_sum [p]) with (p + 0).
  split; [reflexivity |]. split; [ring |]. split.
  - unfold Rdiv. apply Rmult_lt_compat_l; [lra |].
    apply Rinv_lt_contravar; [apply Rmult_lt_0_compat; lra | lra].
  - apply Rmult_lt_compat_l; [exact Hk | lra].
Qed.

(** ** The order of the stations *)

Lemma np_sum_permutation (a b : list R) :
  Permutation a b -> np_sum a = np_sum b.
Proof.
  induction 1 as [| x a b _ IH | x y a | a b c _ IH1 _ IH2]; simpl.
  - reflexivity.
  - rewrite IH. reflexivity.
  - ring.
  - rewrite IH1. exact IH2.
Qed.

Lemma np_max_permutation (a b : list R) :
  Permutation a b -> np_max a = np_max b.
Proof.
  intros Hperm. destruct a as [| x a]; destruct b as [| y b].
  - reflexivity.
  - apply Permutation_nil in Hperm. discriminate.
  - apply Permutation_sym, Permutation_nil in Hperm. discriminate.
  - cbn [np_max]. f_equal. apply Rle_antisym.
    + apply fold_left_Rmax_upper.
      apply (Permutation_in _ Hperm). apply fold_left_Rmax_in.
    + apply fold_left_Rmax_upper.
      apply (Permutation_in _ (Permutation_sym Hperm)).
      apply fold_left_Rmax_in.
Qed.

(** X11. The values of a trial do not depend on the order of the
    stations: two arrays of received powers that are permutations of one
    another give the same result, error included. *)
Theorem station_order_is_immaterial (a b : list R) :
  Permutation a b -> trial_metrics a = trial_metrics b.
Proof.
  intros Hperm. unfold trial_metrics.
  rewrite (np_sum_permutation a b Hperm), (np_max_permutation a b Hperm).
  reflexivity.
Qed.


(** ** Means *)

Lemma np_mean_bounds (l : list R) (b : R) :
  l <> [] -> Forall (fun f => 0 < f <= b) l ->
  0 < np_sum l / INR (length l) <= b.
Proof.
  intros Hne Hall.
  assert (Hlen : 0 < INR (length l)).
  { apply lt_0_INR. destruct l; [congruence | simpl; lia]. }
  assert (Hsum : 0 < np_sum l /\ np_sum l <= INR (length l) * b).
  { clear Hlen. induction Hall as [| x l [Hx1 Hx2] Hall IH].
    - congruence.
    - cbn [np_sum fold_right]. fold (np_sum l). rewrite length_cons, S_INR.
      destruct l as [| y l'].
      + simpl. lra.
      + destruct IH as [IH1 IH2]; [discriminate |]. lra. }
  destruct Hsum as [Hs1 Hs2]. split.
  - apply Rdiv_lt_0_compat; assumption.
  - apply Rmult_le_reg_r with (INR (length l)); [exact Hlen |].
    unfold Rdiv. rewrite Rmult_assoc, Rinv_l by lra. lra.
Qed.

Section DriverMore.
Context {rng : Type}.
Variable standard_normal : rng -> R * rng.
Variable counts : Counts.

Let N := NUMBER_OF_BASE_STATIONS counts.
Let K := NUMBER_OF_MONTE_CARLO_ITERATIONS counts.
Let M := NUMBER_OF_DISTANCE_SAMPLES counts.

(** ** Draws used by a run *)

Lemma after_trials_advance (n : nat) (s : rng) :
  after_trials standard_normal counts n s =
  advance standard_normal (n * (N + N)) s.
Proof.
  revert s. induction n as [| n IH]; intros s; [reflexivity |].
  cbn [after_trials]. rewrite IH, after_trial_spec. fold N.
  rewrite <- advance_add. reflexivity.
Qed.

(** X12. With at least one station and one iteration, a run leaves the
    generator exactly [M * K * 2 N] standard normal draws further. *)
Theorem run_simulation_draws (s : rng) :
  (1 <= N)%nat -> (1 <= K)%nat ->
  snd (run_simulation standard_normal counts s) =
  advance standard_normal (M * K * (N + N)) s.
Proof.
  intros HN HK.
  destruct (sweep_loop_spec standard_normal counts
              (user_distances_from_center counts) HN HK [] [] s)
    as (tss & _ & _ & Hsweep).
  unfold run_simulation, bind. rewrite Hsweep. cbn [snd ret].
  unfold ret. cbn [snd]. rewrite after_trials_advance.
  unfold user_distances_from_center. rewrite (np_linspace_length counts).
  reflexivity.
Qed.

(** ** The shape of a returned result *)

Lemma run_simulation_inr (s : rng) (ds fluxes probabilities : list R) :
  fst (run_simulation standard_normal counts s) =
    inr (ds, fluxes, probabilities) ->
  ds = user_distances_from_center counts
  /\ exists tss : list (list TrialResult),
       length tss = M
       /\ fluxes =
          map (fun ts => np_sum (map electromagnetic_flux_density ts) / INR K)
              tss
       /\ probabilities = map (fun ts => INR (successes ts) / INR K) tss
       /\ (M <> 0%nat -> (1 <= N)%nat /\ (1 <= K)%nat)
       /\ (forall i, (i < M)%nat ->
             length (nth i tss []) = K
             /\ map inr (nth i tss []) =
                trials_of_sample standard_normal counts i
                  (nth i (user_distances_from_center counts) 0) s).
Proof.
  intros Hrun.
  destruct (Nat.eq_dec M 0) as [HM | HM].
  { rewrite (run_simulation_no_samples standard_normal counts s HM) in Hrun.
    injection Hrun as <- <- <-. split.
    - unfold user_distances_from_center. fold M. rewrite HM. reflexivity.
    - exists []. rewrite HM. repeat split; try reflexivity; try lia. }
  destruct (Nat.eq_dec K 0) as [HK | HK].
  { rewrite run_simulation_no_iterations in Hrun by (fold M; fold K; lia).
    discriminate. }
  destruct (Nat.eq_dec N 0) as [HN | HN].
  { rewrite run_simulation_no_stations in Hrun
      by (fold M; fold K; fold N; lia).
    discriminate. }
  destruct (sweep_loop_spec standard_normal counts
              (user_distances_from_center counts)
              ltac:(fold N; lia) ltac:(fold K; lia) [] [] s)
    as (tss & Hlens & Hidx & Hsweep).
  unfold run_simulation, bind in Hrun. rewrite Hsweep in Hrun.
  unfold ret in Hrun. cbn [fst snd app] in Hrun.
  injection Hrun as <- <- <-.
  assert (Hlen : length (user_distances_from_center counts) = M)
    by apply (np_linspace_length counts).
  rewrite Hlen in Hlens, Hidx.
  split; [reflexivity |]. exists tss.
  split; [exact Hlens |]. split; [reflexivity |]. split; [reflexivity |].
  split; [intros _; lia |]. exact Hidx.
Qed.

(** X13. Whatever the counts, a returned result has the distance samples
    as its first sequence and three sequences of the same length, the
    number of distance samples: no shorter result is ever returned. *)
Theorem returned_sequences_are_aligned (s : rng)
    (ds fluxes probabilities : list R) :
  fst (run_simulation standard_normal counts s) =
    inr (ds, fluxes, probabilities) ->
  ds = user_distances_from_center counts
  /\ length ds = M /\ length fluxes = M /\ length probabilities = M.
Proof.
  intros Hrun.
  destruct (run_simulation_inr s ds fluxes probabilities Hrun)
    as (-> & tss & Hlen & -> & -> & _).
  split; [reflexivity |]. split; [apply (np_linspace_length counts) |].
  rewrite !length_map. split; exact Hlen.
Qed.

Lemma trial_at_flux_bounds (d : R) (s : rng) (t : TrialResult) :
  trial_at standard_normal counts d s = inr t ->
  0 < electromagnetic_flux_density t
  /\ electromagnetic_flux_density t <=
     INR N
     * (TRANSMIT_POWER_WATTS / (4 * PI)
        * Rpower BASE_STATION_HEIGHT_METERS (- PATH_LOSS_EXPONENT_ALPHA)).
Proof.
  unfold trial_at, trial, bind. rewrite sample_topology_spec.
  cbn [fst snd]. fold N.
  set (distances := distances_2d_meters _ _ d).
  destruct (trial_metrics (received_powers_watts distances)) as [e | t']
    eqn:Hm; cbn [lift]; unfold raise, ret; cbn [fst]; intros Ht;
    [discriminate |].
  injection Ht as <-.
  assert (Hlen : length distances = N).
  { unfold distances. rewrite distances_2d_length, !length_map,
      !next_draws_length. apply Nat.min_id. }
  rewrite <- Hlen. apply flux_bounds_of_distances. exact Hm.
Qed.

(** X14. Every mean flux of a returned result is strictly positive (so
    the logarithmic axis of line 90 can show it) and at most the number
    of stations times [Pt / (4 pi) * h^(-alpha)]. *)
Theorem mean_flux_is_positive_and_bounded (s : rng)
    (ds fluxes probabilities : list R) :
  fst (run_simulation standard_normal counts s) =
    inr (ds, fluxes, probabilities) ->
  Forall (fun f =>
            0 < f <=
            INR N
            * (TRANSMIT_POWER_WATTS / (4 * PI)
               * Rpower BASE_STATION_HEIGHT_METERS
                        (- PATH_LOSS_EXPONENT_ALPHA)))
         fluxes.
Proof.
  intros Hrun.
  destruct (run_simulation_inr s ds fluxes probabilities Hrun)
    as (-> & tss & Hlen & -> & -> & Hpos & Hidx).
  apply Forall_forall. intros f Hf. apply in_map_iff in Hf.
  destruct Hf as (ts & <- & Hin).
  destruct (In_nth _ _ [] Hin) as (i & Hi & <-). rewrite Hlen in Hi.
  destruct (Hidx i Hi) as [Hl Hm].
  destruct Hpos as [_ HK]; [lia |].
  set (ts := nth i tss []) in *.
  assert (Hall : Forall (fun f =>
              0 < f <=
              INR N
              * (TRANSMIT_POWER_WATTS / (4 * PI)
                 * Rpower BASE_STATION_HEIGHT_METERS
                          (- PATH_LOSS_EXPONENT_ALPHA)))
            (map electromagnetic_flux_density ts)).
  { apply Forall_forall. intros f Hf. apply in_map_iff in Hf.
    destruct Hf as (t & <- & Ht).
    assert (Ht' : In (@inr exn TrialResult t) (map inr ts))
      by (apply in_map; exact Ht).
    rewrite Hm in Ht'. unfold trials_of_sample in Ht'.
    apply in_map_iff in Ht'. destruct Ht' as (j & Hj & _).
    eapply trial_at_flux_bounds. exact Hj. }
  assert (Hne : map electromagnetic_flux_density ts <> []).
  { intros Hnil. apply (f_equal (@length R)) in Hnil.
    rewrite length_map, Hl in Hnil. simpl in Hnil. lia. }
  pose proof (np_mean_bounds _ _ Hne Hall) as Hb.
  rewrite length_map, Hl in Hb. exact Hb.
Qed.

(** ** Reproducible topologies *)





(** ** Splitting the loops *)

(** X15. Running [a + b] iterations is running [a] and then [b] on the
    accumulators and generator left by the first; sweeping a concatenated
    list of distances is sweeping the first part and then the second. *)
Theorem loops_compose :
  (forall (a b : nat) (d : R) (samples : list R) (successful : nat) (s : rng),
      monte_carlo_loop standard_normal counts (a + b) d samples successful s =
      bind (monte_carlo_loop standard_normal counts a d samples successful)
           (fun r => monte_carlo_loop standard_normal counts b d
                       (fst r) (snd r))
           s)
  /\ (forall (ds1 ds2 means probabilities : list R) (s : rng),
         sweep_loop standard_normal counts (ds1 ++ ds2) means probabilities s =
         bind (sweep_loop standard_normal counts ds1 means probabilities)
              (fun r => sweep_loop standard_normal counts ds2 (fst r) (snd r))
              s).
Proof.
  split.
  - induction a as [| a IH]; intros b d samples successful s.
    + reflexivity.
    + cbn [Nat.add monte_carlo_loop]. unfold bind.
      destruct (trial standard_normal counts d s) as [[e | t] s'];
        [reflexivity |].
      rewrite IH. reflexivity.
  - induction ds1 as [| d ds1 IH]; intros ds2 means probabilities s.
    + reflexivity.
    + cbn [app sweep_loop]. unfold bind.
      destruct (monte_carlo_loop standard_normal counts _ d [] 0%nat s)
        as [[e | acc] s']; [reflexivity |].
      destruct (lift (py_truediv (snd acc) _) s') as [[e | p] s''];
        [reflexivity |].
      rewrite IH. reflexivity.
Qed.

End DriverMore.


(** ** Not-a-number on binary64 *)

Section Binary64More.
Import PrimFloat SpecFloat FloatOps FloatAxioms.
Variable add_reduce : list float -> float.
Variable noise_floor kappa_over_4pi : float.

Lemma SFeqb_refl_false (f : spec_float) :
  SFeqb f f = false -> f = S754_nan.
Proof.
  destruct f as [s | s | | s m e]; unfold SFeqb, SFcompare;
    try (destruct s; discriminate); try reflexivity.
  rewrite Z.compare_refl, Pos.compare_cont_refl.
  destruct s; discriminate.
Qed.

Lemma ltb_nan_r (x y : float) : is_nan y = true -> ltb x y = false.
Proof.
  unfold is_nan. intros Hnan. apply Bool.negb_true_iff in Hnan.
  rewrite eqb_spec in Hnan. apply SFeqb_refl_false in Hnan.
  rewrite ltb_spec, Hnan. unfold SFltb, SFcompare.
  destruct (Prim2SF x) as [s | s | | s m e]; try destruct s; reflexivity.
Qed.

(** X16. On binary64 a trial whose ratio is NaN is never a coverage
    success: the comparison with 0.5 of line 68 is false. *)
Theorem binary64_nan_ratio_is_a_failure (received : list float)
    (sinr flux : float) (success : bool) :
  Binary64.trial_metrics add_reduce noise_floor kappa_over_4pi received =
    inr (sinr, success, flux) ->
  is_nan sinr = true ->
  success = false.
Proof.
  unfold Binary64.trial_metrics.
  destruct (Binary64.np_max received) as [e | strongest]; [discriminate |].
  intros Hm Hnan. injection Hm as Hs Hsucc _. subst sinr.
  rewrite <- Hsucc. apply ltb_nan_r. exact Hnan.
Qed.
End Binary64More.

(** ** Worked instances of the properties above *)

Lemma coverage_threshold_in_decibels_witness :
  exists t : TrialResult,
    trial_metrics [1] = inr t
    /\ (coverage_success t = true ->
        Rpower 10 (- (302 / 100) / 10) < signal_to_interference_noise_ratio t).
Proof.
  eexists. split; [reflexivity |].
  apply (coverage_threshold_in_decibels [1]). reflexivity.
Defined.

Lemma flux_density_without_kappa_witness :
  exists t : TrialResult,
    trial_metrics (received_powers_watts [0; 100]) = inr t
    /\ electromagnetic_flux_density t =
       TRANSMIT_POWER_WATTS / (4 * PI)
       * np_sum (map (fun r =>
                        Rpower (r ^ 2 + BASE_STATION_HEIGHT_METERS ^ 2)
                               (- PATH_LOSS_EXPONENT_ALPHA / 2))
                     [0; 100]).
Proof.
  eexists. split; [reflexivity |].
  apply (flux_density_without_kappa [0; 100]). reflexivity.
Defined.

Lemma flux_density_bounds_witness :
  exists t : TrialResult,
    trial_metrics (received_powers_watts [0; 100; 4000]) = inr t
    /\ 0 < electromagnetic_flux_density t.
Proof.
  eexists. split; [reflexivity |].
  apply (flux_density_bounds [0; 100; 4000]). reflexivity.
Defined.

Lemma sinr_bounds_witness :
  exists t : TrialResult,
    trial_metrics (received_powers_watts [250; 1200]) = inr t
    /\ 0 < signal_to_interference_noise_ratio t.
Proof.
  eexists. split; [reflexivity |].
  apply (sinr_bounds [250; 1200]). reflexivity.
Defined.

Lemma one_more_station_witness :
  exists t t' : TrialResult,
    trial_metrics [2] = inr t
    /\ trial_metrics ([2] ++ [1]) = inr t'
    /\ signal_to_interference_noise_ratio t' <
       signal_to_interference_noise_ratio t.
Proof.
  eexists.
  destruct (one_more_station [2] 1
              {| total_received_power_watts := np_sum [2];
                 strongest_signal_watts := 2;
                 interference_watts := np_sum [2] - 2;
                 signal_to_interference_noise_ratio :=
                   2 / (np_sum [2] - 2 + NOISE_FLOOR_WATTS);
                 coverage_success :=
                   if Rgt_dec (2 / (np_sum [2] - 2 + NOISE_FLOOR_WATTS))
                              (5 / 10)
                   then true else false;
                 electromagnetic_flux_density :=
                   PATH_LOSS_CONSTANT_KAPPA / (4 * PI) * np_sum [2] |})
    as (t' & Ht' & _ & _ & Hlt & _).
  - repeat constructor. lra.
  - reflexivity.
  - lra.
  - simpl. lra.
  - exists t'. split; [reflexivity |]. split; [exact Ht' | exact Hlt].
Defined.

Lemma station_order_is_immaterial_witness :
  trial_metrics [1; 2; 3] = trial_metrics [2; 1; 3].
Proof.
  apply station_order_is_immaterial. apply perm_swap.
Defined.

Lemma run_simulation_draws_witness :
  snd (run_simulation counting_normal reference_counts 0%nat) =
  advance counting_normal (50 * 200 * (80 + 80)) 0%nat.
Proof.
  apply (run_simulation_draws counting_normal reference_counts 0%nat);
    simpl; lia.
Defined.

Lemma small_run_returns :
  exists fluxes probabilities : list R,
    fst (run_simulation counting_normal small_counts 0%nat) =
    inr (user_distances_from_center small_counts, fluxes, probabilities).
Proof.
  destruct (sweep_loop_spec counting_normal small_counts
              (user_distances_from_center small_counts)
              ltac:(simpl; lia) ltac:(simpl; lia) [] [] 0%nat)
    as (tss & _ & _ & Hsweep).
  do 2 eexists. unfold run_simulation, bind. rewrite Hsweep. reflexivity.
Qed.

Lemma returned_sequences_are_aligned_witness :
  exists ds fluxes probabilities : list R,
    fst (run_simulation counting_normal small_counts 0%nat) =
      inr (ds, fluxes, probabilities)
    /\ length fluxes = 3%nat /\ length probabilities = 3%nat.
Proof.
  destruct small_run_returns as (fluxes & probabilities & Hrun).
  exists (user_distances_from_center small_counts), fluxes, probabilities.
  split; [exact Hrun |].
  apply (returned_sequences_are_aligned counting_normal small_counts 0%nat
           _ _ _ Hrun).
Defined.

Lemma mean_flux_is_positive_and_bounded_witness :
  exists ds fluxes probabilities : list R,
    fst (run_simulation counting_normal small_counts 0%nat) =
      inr (ds, fluxes, probabilities)
    /\ Forall (fun f => 0 < f) fluxes.
Proof.
  destruct small_run_returns as (fluxes & probabilities & Hrun).
  exists (user_distances_from_center small_counts), fluxes, probabilities.
  split; [exact Hrun |].
  eapply Forall_impl;
    [| exact (mean_flux_is_positive_and_bounded counting_normal small_counts
                0%nat _ _ _ Hrun)].
  intros f [Hf _]. exact Hf.
Defined.

Lemma binary64_nan_ratio_is_a_failure_witness :
  exists success : bool,
    Binary64.trial_metrics Binary64.sum_in_order
      Binary64.example_noise_floor Binary64.example_kappa_over_4pi
      [PrimFloat.infinity] =
    inr (PrimFloat.nan, success, PrimFloat.infinity)
    /\ success = false.
Proof.
  exists false. split; [vm_compute; reflexivity |].
  apply (binary64_nan_ratio_is_a_failure Binary64.sum_in_order
           Binary64.example_noise_floor Binary64.example_kappa_over_4pi
           [PrimFloat.infinity] PrimFloat.nan PrimFloat.infinity false).
  - vm_compute. reflexivity.
  - vm_compute. reflexivity.
Defined.


(** ** The path loss on binary64 *)

Section Binary64PathLoss.
Import PrimFloat SpecFloat FloatOps FloatAxioms.

Lemma SFltb_irrefl (f : spec_float) : SFltb f f = false.
Proof.
  destruct f as [s | s | | s m e]; unfold SFltb, SFcompare;
    try (destruct s; reflexivity); try reflexivity.
  rewrite Z.compare_refl, Pos.compare_cont_refl.
  destruct s; reflexivity.
Qed.

Lemma ltb_irrefl (x : float) : ltb x x = false.
Proof. rewrite ltb_spec. apply SFltb_irrefl. Qed.

(** On binary64 the square of [2^-30] is absorbed when it is added to
    1089: the function is given the same base at distance zero and at
    [2^-30] metres, and it returns the same value, whatever the power
    function and the constant [kappa] are. *)
Lemma path_loss_ties_on_binary64 :
  leb zero zero = true
  /\ ltb zero Binary64.example_near_distance = true
  /\ Binary64.distance_3d_squared Binary64.example_near_distance =
     Binary64.distance_3d_squared zero
  /\ ~ (exists (pow : float -> float -> float) (kappa : float),
          ltb (Binary64.get_path_loss_attenuation_factor pow kappa
                 Binary64.example_near_distance)
              (Binary64.get_path_loss_attenuation_factor pow kappa zero)
          = true).
Proof.
  assert (Hbase : Binary64.distance_3d_squared Binary64.example_near_distance
                  = Binary64.distance_3d_squared zero)
    by (vm_compute; reflexivity).
  split; [vm_compute; reflexivity |].
  split; [vm_compute; reflexivity |].
  split; [exact Hbase |].
  intros (pow & kappa & Hlt).
  unfold Binary64.get_path_loss_attenuation_factor in Hlt.
  rewrite Hbase, ltb_irrefl in Hlt. discriminate.
Qed.
End Binary64PathLoss.
